(** * Game of Life: the automaton engine of [game_of_life.py]

    A shallow embedding of the classes [NullCell], [Cell], [Neighbour],
    [Neighbours] and [Universe].  Python objects live in a store and are
    named by references, so that the board, the flat cell list and the
    neighbour links all alias the same cells, as they do in the program.
    Methods are actions of a state-and-exception monad: an exception leaves
    the mutations made before it in place. *)

From stdpp Require Import gmap strings list fin_maps.
From Stdlib Require Import ZArith Lia.

Local Open Scope Z_scope.

(** ** Exceptions and the method monad *)

(** The Python exceptions the engine can raise.  [Dangling] is not a Python
    exception: it marks a reference that names no object of the store, which
    cannot happen in Python and happens in no universe built by the
    constructor. *)
Inductive exn : Set :=
  | AssertionError
  | IndexError
  | TypeError
  | Dangling.

Inductive Res (A : Type) : Type :=
  | Ok (a : A)
  | Raise (e : exn).
Arguments Ok {A} a.
Arguments Raise {A} e.

(** A method over a mutable state [S]: it returns a value or raises, and in
    both cases hands back the state as it left it. *)
Definition M (S A : Type) : Type := S → Res A * S.

Definition ret {S A} (a : A) : M S A := λ s, (Ok a, s).

Definition bind {S A B} (m : M S A) (f : A → M S B) : M S B :=
  λ s, match m s with
       | (Ok a, s') => f a s'
       | (Raise e, s') => (Raise e, s')
       end.

Definition raise {S A} (e : exn) : M S A := λ s, (Raise e, s).
Definition gets {S A} (f : S → A) : M S A := λ s, (Ok (f s), s).
Definition modify {S} (f : S → S) : M S unit := λ s, (Ok tt, f s).

#[global] Instance M_ret {S} : MRet (M S) := λ A, ret.
#[global] Instance M_bind {S} : MBind (M S) := λ A B f m, bind m f.

(** [for a in l: f a] *)
Fixpoint forM_ {S A} (l : list A) (f : A → M S unit) : M S unit :=
  match l with
  | [] => ret tt
  | a :: l' => bind (f a) (λ _, forM_ l' f)
  end.

(** A loop that threads a local variable [acc] through its iterations. *)
Fixpoint foldM {S A B} (f : B → A → M S B) (l : list A) (acc : B) : M S B :=
  match l with
  | [] => ret acc
  | a :: l' => bind (f acc a) (λ acc', foldM f l' acc')
  end.

(** A loop that appends one value per element to a fresh list. *)
Fixpoint mapM {S A B} (f : A → M S B) (l : list A) : M S (list B) :=
  match l with
  | [] => ret []
  | a :: l' => bind (f a) (λ b, bind (mapM f l') (λ bs, ret (b :: bs)))
  end.

(** ** Python built-ins *)

(** [range(n)] *)
Definition range (n : Z) : list Z := seqZ 0 n.

(** [enumerate(l)] *)
Definition enumerate {A} (l : list A) : list (Z * A) :=
  imap (λ i a, (Z.of_nat i, a)) l.

(** [l[i]]: negative indices count from the end; out of range raises. *)
Definition py_index {A} (l : list A) (i : Z) : option A :=
  if 0 <=? i then l !! Z.to_nat i
  else if - Z.of_nat (length l) <=? i then l !! Z.to_nat (Z.of_nat (length l) + i)
  else None.

Definition getitem {S A} (l : list A) (i : Z) : M S A :=
  match py_index l i with
  | Some a => ret a
  | None => raise IndexError
  end.

(** [bool(v)] for [v] an int or [None]. *)
Definition truthy (v : option Z) : bool :=
  match v with
  | Some n => negb (n =? 0)
  | None => false
  end.

(** [a + b] on ints; [None] as an operand raises [TypeError]. *)
Definition py_add {S} (a b : option Z) : M S (option Z) :=
  match a, b with
  | Some m, Some n => ret (Some (m + n))
  | _, _ => raise TypeError
  end.

(** [v == n] for [v] an int or [None] and [n] an int. *)
Definition py_eq (v : option Z) (n : Z) : bool :=
  match v with
  | Some m => m =? n
  | None => false
  end.

(** ** Objects *)

(** A reference to a [Cell] object: its position in the store. *)
Abbreviation ref := nat (only parsing).

(** What a neighbour slot reads as: a cell, or the [Cell.NULL] singleton. *)
Inductive obj : Set :=
  | NULL
  | CellRef (r : ref).

(** The descriptor class [Neighbour]. *)
Module Neighbour.
Record t : Set := mk { x : Z; y : Z; _name : string }.

(** [__get__] on an instance: [instance.__dict__.get(self._name, Cell.NULL)] *)
Definition __get__ (self : t) (instance : gmap string ref) : obj :=
  match instance !! _name self with
  | Some r => CellRef r
  | None => NULL
  end.

(** [__set__]: a [None] value is not stored. *)
Definition __set__ (self : t) (value : option ref)
    (instance : gmap string ref) : gmap string ref :=
  match value with
  | Some v => <[_name self := v]> instance
  | None => instance
  end.
End Neighbour.

(** A [Cell]; [neighbours] is the [__dict__] of its [Neighbours] instance.
    [_state] and [_state_dirty] hold an int or [None].  The [rectangle] slot,
    used by the renderer only, is left out. *)
Record Cell : Type := mkCell {
  _state : option Z;
  _state_dirty : option Z;
  pos_x : Z;
  pos_y : Z;
  neighbours : gmap string ref
}.

Definition with_state (v : option Z) (c : Cell) : Cell :=
  mkCell v (_state_dirty c) (pos_x c) (pos_y c) (neighbours c).
Definition with_state_dirty (v : option Z) (c : Cell) : Cell :=
  mkCell (_state c) v (pos_x c) (pos_y c) (neighbours c).
Definition with_neighbours (n : gmap string ref) (c : Cell) : Cell :=
  mkCell (_state c) (_state_dirty c) (pos_x c) (pos_y c) n.

(** [Cell.__init__] *)
Definition Cell__init__ (is_alive : bool) (pos_x pos_y : Z) : Cell :=
  mkCell (Some (Z.b2z is_alive)) None pos_x pos_y ∅.

(** The [is_alive] property. *)
Definition is_alive : M Cell bool := gets (λ self, truthy (_state self)).

(** The [is_alive] setter: stages the next state. *)
Definition set_is_alive (alive : bool) : M Cell unit :=
  d ← gets _state_dirty;
  match d with
  | None => modify (with_state_dirty (Some (Z.b2z alive)))
  | Some _ => raise AssertionError
  end.

(** [Cell.commit] *)
Definition commit : M Cell unit :=
  modify (λ self, with_state (_state_dirty self) self);;
  modify (with_state_dirty None).

(** The universe and the store of its cells. *)
Record Universe : Type := mkUniverse {
  store : list Cell;
  _board : list (list ref);
  _cells : list ref
}.

Definition with_store (s : list Cell) (u : Universe) : Universe :=
  mkUniverse s (_board u) (_cells u).
Definition with_board (b : list (list ref)) (u : Universe) : Universe :=
  mkUniverse (store u) b (_cells u).
Definition with_cells (l : list ref) (u : Universe) : Universe :=
  mkUniverse (store u) (_board u) l.

(** Run a method of the cell that [r] names. *)
Definition at_cell {A} (r : ref) (m : M Cell A) : M Universe A :=
  λ u, match store u !! r with
       | Some c => let (res, c') := m c in (res, with_store (<[r := c']> (store u)) u)
       | None => (Raise Dangling, u)
       end.

(** [o._state] for [o] a cell or [Cell.NULL] ([NullCell._state = 0]). *)
Definition obj_state (o : obj) : M Universe (option Z) :=
  match o with
  | NULL => ret (Some 0)
  | CellRef r => at_cell r (gets _state)
  end.

(** The class [Neighbours]: its eight descriptors and [get_alive_count]. *)
Module Neighbours.
Definition top := Neighbour.mk 0 (-1) "top".
Definition top_right := Neighbour.mk 1 (-1) "top_right".
Definition right := Neighbour.mk 1 0 "right".
Definition bottom_right := Neighbour.mk 1 1 "bottom_right".
Definition bottom := Neighbour.mk 0 1 "bottom".
Definition bottom_left := Neighbour.mk (-1) 1 "bottom_left".
Definition left := Neighbour.mk (-1) 0 "left".
Definition top_left := Neighbour.mk (-1) (-1) "top_left".

(** The descriptors in the order [get_alive_count] and the constructor
    go through them. *)
Definition all : list Neighbour.t :=
  [top; top_right; right; bottom_right; bottom; bottom_left; left; top_left].

Definition get_alive_count (self : gmap string ref) : M Universe (option Z) :=
  a ← obj_state (Neighbour.__get__ top self);
  b ← obj_state (Neighbour.__get__ top_right self);
  s ← py_add a b;
  b ← obj_state (Neighbour.__get__ right self);
  s ← py_add s b;
  b ← obj_state (Neighbour.__get__ bottom_right self);
  s ← py_add s b;
  b ← obj_state (Neighbour.__get__ bottom self);
  s ← py_add s b;
  b ← obj_state (Neighbour.__get__ bottom_left self);
  s ← py_add s b;
  b ← obj_state (Neighbour.__get__ left self);
  s ← py_add s b;
  b ← obj_state (Neighbour.__get__ top_left self);
  py_add s b.
End Neighbours.

(** ** [Universe] *)

(** [row = []; board.append(row)]: the new row is named by its index. *)
Definition board_append_row : M Universe nat :=
  λ u, (Ok (length (_board u)), with_board (_board u ++ [[]]) u).

(** [row.append(cell)] *)
Definition row_append (row : nat) (cell : ref) : M Universe unit :=
  modify (λ u, with_board (alter (λ r, r ++ [cell]) row (_board u)) u).

(** [self._cells.append(cell)] *)
Definition cells_append (cell : ref) : M Universe unit :=
  modify (λ u, with_cells (_cells u ++ [cell]) u).

(** Creating a [Cell] object. *)
Definition alloc (c : Cell) : M Universe ref :=
  λ u, (Ok (length (store u)), with_store (store u ++ [c]) u).

(** The nested function [get_neighbour], with the variables it captures. *)
Definition get_neighbour (width height col_ptr row_ptr : Z)
    (neighbour : Neighbour.t) : M Universe (option ref) :=
  let x := col_ptr + Neighbour.x neighbour in
  let y := row_ptr + Neighbour.y neighbour in
  if (-1 <? x) && (x <? width) && ((-1 <? y) && (y <? height)) then
    board ← gets _board;
    row ← getitem board y;
    c ← getitem row x;
    ret (Some c)
  else ret None.

(** [cell.neighbours.<d> = value] *)
Definition set_neighbour (cell : ref) (d : Neighbour.t) (value : option ref)
    : M Universe unit :=
  at_cell cell (modify (λ c, with_neighbours (Neighbour.__set__ d value (neighbours c)) c)).

(** One assignment [cell.neighbours.<d> = get_neighbour(Neighbours.<d>)]. *)
Definition wire (width height col_ptr row_ptr : Z) (cell : ref)
    (d : Neighbour.t) : M Universe unit :=
  v ← get_neighbour width height col_ptr row_ptr d;
  set_neighbour cell d v.

(** The first pass of [Universe.__init__]: create every cell. *)
Definition create_cells (width height : Z) : M Universe unit :=
  forM_ (range height) (λ row_ptr,
    row ← board_append_row;
    forM_ (range width) (λ col_ptr,
      cell ← alloc (Cell__init__ false col_ptr row_ptr);
      row_append row cell;;
      cells_append cell)).

(** The body of the second pass for one cell: its eight assignments. *)
Definition wire_cell (width height col_ptr row_ptr : Z) (cell : ref)
    : M Universe unit :=
  wire width height col_ptr row_ptr cell Neighbours.top;;
  wire width height col_ptr row_ptr cell Neighbours.top_right;;
  wire width height col_ptr row_ptr cell Neighbours.right;;
  wire width height col_ptr row_ptr cell Neighbours.bottom_right;;
  wire width height col_ptr row_ptr cell Neighbours.bottom;;
  wire width height col_ptr row_ptr cell Neighbours.bottom_left;;
  wire width height col_ptr row_ptr cell Neighbours.left;;
  wire width height col_ptr row_ptr cell Neighbours.top_left.

(** The second pass: set the neighbours of every cell. *)
Definition wire_cells (width height : Z) : M Universe unit :=
  board ← gets _board;
  forM_ (enumerate board) (λ '(row_ptr, row),
    forM_ (enumerate row) (λ '(col_ptr, cell),
      wire_cell width height col_ptr row_ptr cell)).

(** [Universe.__init__] *)
Definition Universe__init__ (width height : Z) : M Universe unit :=
  create_cells width height;;
  wire_cells width height.

(** [Universe(width, height)]: the constructor runs on a universe whose
    collections are still empty. *)
Definition construct (width height : Z) : Res unit * Universe :=
  Universe__init__ width height (mkUniverse [] [] []).

(** [Universe.__setitem__] *)
Definition __setitem__ (key : Z * Z) (alive : bool) : M Universe unit :=
  let '(x, y) := key in
  board ← gets _board;
  row ← getitem board y;
  cell ← getitem row x;
  at_cell cell (set_is_alive alive);;
  at_cell cell commit.

(** The body of the first loop of [tick] for one cell. *)
Definition tick_cell (changed : list ref) (cell : ref) : M Universe (list ref) :=
  nb ← at_cell cell (gets neighbours);
  alive_neighbour_count ← Neighbours.get_alive_count nb;
  alive ← at_cell cell is_alive;
  match alive return M Universe (list ref) with
  | true =>
      (if negb (py_eq alive_neighbour_count 2 || py_eq alive_neighbour_count 3)
       then at_cell cell (set_is_alive false)
       else at_cell cell (set_is_alive true));;
      ret (changed ++ [cell])
  | false =>
      if py_eq alive_neighbour_count 3 then
        at_cell cell (set_is_alive true);;
        ret (changed ++ [cell])
      else ret changed
  end.

(** [Universe.tick] *)
Definition tick : M Universe (list ref) :=
  cells ← gets _cells;
  changed ← foldM tick_cell cells [];
  forM_ changed (λ cell, at_cell cell commit);;
  ret changed.

(** [Universe.to_list] *)
Definition to_list : M Universe (list (list bool)) :=
  board ← gets _board;
  mapM (λ row, mapM (λ cell, at_cell cell is_alive) row) board.

(** ** Observing a universe *)

(** The reference the board holds at column [x] of row [y]; nothing outside
    the grid (no wrap-around of negative coordinates here). *)
Definition ref_at (u : Universe) (x y : Z) : option ref :=
  if (0 <=? x) && (0 <=? y) then
    row ← _board u !! Z.to_nat y;
    row !! Z.to_nat x
  else None.

(** The cell object at [(x, y)]. *)
Definition cell_at (u : Universe) (x y : Z) : option Cell :=
  r ← ref_at u x y;
  store u !! r.

(** The committed state of the cell at [(x, y)], as [is_alive] reports it;
    a position outside the grid counts as dead. *)
Definition alive_at (u : Universe) (x y : Z) : bool :=
  match cell_at u x y with
  | Some c => truthy (_state c)
  | None => false
  end.

(** The number of live cells among the eight positions around [(x, y)]. *)
Definition count_at (u : Universe) (x y : Z) : Z :=
  Z.b2z (alive_at u x (y - 1))
  + Z.b2z (alive_at u (x + 1) (y - 1))
  + Z.b2z (alive_at u (x + 1) y)
  + Z.b2z (alive_at u (x + 1) (y + 1))
  + Z.b2z (alive_at u x (y + 1))
  + Z.b2z (alive_at u (x - 1) (y + 1))
  + Z.b2z (alive_at u (x - 1) y)
  + Z.b2z (alive_at u (x - 1) (y - 1)).

(** Conway's rule at [(x, y)], read off the generation [u]. *)
Definition conway (u : Universe) (x y : Z) : bool :=
  if alive_at u x y
  then (count_at u x y =? 2) || (count_at u x y =? 3)
  else count_at u x y =? 3.

(** No cell of the store has a staged value pending. *)
Definition stable (u : Universe) : Prop :=
  ∀ r c, store u !! r = Some c → _state_dirty c = None.

(** The universes a caller can hold: built by [Universe(width, height)] and
    then driven through the public methods, whatever their outcome. *)
Inductive reachable (width height : Z) : Universe → Prop :=
  | reach_construct :
      reachable width height (snd (construct width height))
  | reach_setitem u key alive :
      reachable width height u →
      reachable width height (snd (__setitem__ key alive u))
  | reach_tick u :
      reachable width height u →
      reachable width height (snd (tick u))
  | reach_to_list u :
      reachable width height u →
      reachable width height (snd (to_list u)).

(** [universe[x, y] = True] for every key of [l], in order. *)
Definition seed (l : list (Z * Z)) : M Universe unit :=
  forM_ l (λ key, __setitem__ key true).

(** A blinker read at the offset [(dx, dy)] from its centre: three cells in
    a column if [vertical], else three cells in a row. *)
Definition bl_off (vertical : bool) (dx dy : Z) : bool :=
  if vertical
  then (dx =? 0) && ((-1 <=? dy) && (dy <=? 1))
  else (dy =? 0) && ((-1 <=? dx) && (dx <=? 1)).

(** A blinker centred at [(cx, cy)]. *)
Definition blinker (vertical : bool) (cx cy x y : Z) : bool :=
  bl_off vertical (x - cx) (y - cy).

(** The number of blinker cells around the offset [(dx, dy)]. *)
Definition off_count (vertical : bool) (dx dy : Z) : Z :=
  Z.b2z (bl_off vertical dx (dy - 1))
  + Z.b2z (bl_off vertical (dx + 1) (dy - 1))
  + Z.b2z (bl_off vertical (dx + 1) dy)
  + Z.b2z (bl_off vertical (dx + 1) (dy + 1))
  + Z.b2z (bl_off vertical dx (dy + 1))
  + Z.b2z (bl_off vertical (dx - 1) (dy + 1))
  + Z.b2z (bl_off vertical (dx - 1) dy)
  + Z.b2z (bl_off vertical (dx - 1) (dy - 1)).

(** A 4 by 4 universe holding a 2 by 2 block in its middle. *)
Definition block_universe : Universe :=
  snd (seed [(1, 1); (2, 1); (1, 2); (2, 2)] (snd (construct 4 4))).

(** A 5 by 5 universe holding a horizontal blinker in its middle. *)
Definition blinker_universe : Universe :=
  snd (seed [(1, 2); (2, 2); (3, 2)] (snd (construct 5 5))).

(** A 3 by 3 universe whose only live cell is the corner [(0, 0)]. *)
Definition corner_universe : Universe :=
  snd (__setitem__ (0, 0) true (snd (construct 3 3))).

(** ** Closed forms used by the proofs *)

Definition ncells (w h : Z) : nat := (Z.to_nat w * Z.to_nat h)%nat.

Definition row_refs (w : Z) (y : nat) : list ref :=
  seq (y * Z.to_nat w) (Z.to_nat w).

Definition grid_board (w h : Z) : list (list ref) :=
  row_refs w <$> seq 0 (Z.to_nat h).

(** The universe of a [w] by [h] grid whose [i]-th cell is [cellf i]. *)
Definition grid (w h : Z) (cellf : nat → Cell) : Universe :=
  mkUniverse (cellf <$> seq 0 (ncells w h)) (grid_board w h) (seq 0 (ncells w h)).

Definition col_of (w : Z) (i : nat) : Z := Z.of_nat (i mod Z.to_nat w).
Definition row_of (w : Z) (i : nat) : Z := Z.of_nat (i / Z.to_nat w).

(** The guard of [get_neighbour]: [(x, y)] lies on the board. *)
Definition in_grid (w h x y : Z) : bool :=
  (-1 <? x) && (x <? w) && ((-1 <? y) && (y <? h)).

(** What [get_neighbour] returns for the cell at [(x, y)]. *)
Definition resolve (w h x y : Z) (d : Neighbour.t) : option ref :=
  let x' := x + Neighbour.x d in
  let y' := y + Neighbour.y d in
  if (-1 <? x') && (x' <? w) && ((-1 <? y') && (y' <? h))
  then Some (Z.to_nat y' * Z.to_nat w + Z.to_nat x')%nat
  else None.

(** The neighbour dictionary of the cell at [(x, y)] after construction. *)
Definition wiring (w h x y : Z) : gmap string ref :=
  foldl (λ m d, Neighbour.__set__ d (resolve w h x y d) m) ∅ Neighbours.all.

(** A freshly created cell, before the second pass. *)
Definition fresh (w : Z) (i : nat) : Cell :=
  Cell__init__ false (col_of w i) (row_of w i).

(** A wired cell with committed state [st i] and staged state [dt i]. *)
Definition gcell (w h : Z) (st dt : nat → option Z) (i : nat) : Cell :=
  mkCell (st i) (dt i) (col_of w i) (row_of w i)
         (wiring w h (col_of w i) (row_of w i)).

(** The stable universe whose [i]-th cell is alive iff [b i]. *)
Definition life (w h : Z) (b : nat → bool) : Universe :=
  grid w h (gcell w h (λ i, Some (Z.b2z (b i))) (λ _, None)).

(** The cell [i] during the second pass of the constructor, when the cells
    before [k] have been wired. *)
Definition wired_upto (w h : Z) (k i : nat) : Cell :=
  if decide (i < k)%nat then gcell w h (λ _, Some 0) (λ _, None) i else fresh w i.

(** What the neighbour slot [d] of cell [i] adds to its alive count. *)
Definition nbval (w h : Z) (b : nat → bool) (i : nat) (d : Neighbour.t) : Z :=
  match resolve w h (col_of w i) (row_of w i) d with
  | Some r => Z.b2z (b r)
  | None => 0
  end.

(** The alive count of cell [i] in [life w h b]. *)
Definition nbcount (w h : Z) (b : nat → bool) (i : nat) : Z :=
  nbval w h b i Neighbours.top
  + nbval w h b i Neighbours.top_right
  + nbval w h b i Neighbours.right
  + nbval w h b i Neighbours.bottom_right
  + nbval w h b i Neighbours.bottom
  + nbval w h b i Neighbours.bottom_left
  + nbval w h b i Neighbours.left
  + nbval w h b i Neighbours.top_left.

(** The state [tick] gives cell [i] of [life w h b]. *)
Definition next_alive (w h : Z) (b : nat → bool) (i : nat) : bool :=
  if b i then (nbcount w h b i =? 2) || (nbcount w h b i =? 3)
  else nbcount w h b i =? 3.

(** The cells [tick] stages, appends to [changed] and commits. *)
Definition touched (w h : Z) (b : nat → bool) (i : nat) : bool :=
  b i || (nbcount w h b i =? 3).

(** The staged slot of cell [i] once the first loop of [tick] has passed it. *)
Definition staged (w h : Z) (b : nat → bool) (i : nat) : option Z :=
  if touched w h b i then Some (Z.b2z (next_alive w h b i)) else None.

(** The universe in the first loop of [tick], the cells before [k] done. *)
Definition staging (w h : Z) (b : nat → bool) (k : nat) : Universe :=
  grid w h (gcell w h (λ i, Some (Z.b2z (b i)))
                  (λ i, if decide (i < k)%nat then staged w h b i else None)).

(** The universe in the second loop of [tick], the cells before [k] done. *)
Definition committing (w h : Z) (b : nat → bool) (k : nat) : Universe :=
  grid w h (gcell w h
    (λ i, if decide (i < k)%nat then Some (Z.b2z (next_alive w h b i))
          else Some (Z.b2z (b i)))
    (λ i, if decide (i < k)%nat then None else staged w h b i)).

(** Replace the object that [r] names. *)
Definition set_cell (r : ref) (c : Cell) (u : Universe) : Universe :=
  with_store (<[r := c]> (store u)) u.

(** ** More of the engine's surface *)

(** The [cells] property of [Universe]. *)
Definition cells : M Universe (list ref) := gets _cells.

(** The committed state of the cell that [r] names, as [is_alive] reports
    it on that object. *)
Definition ref_alive (u : Universe) (r : ref) : bool :=
  match store u !! r with
  | Some c => truthy (_state c)
  | None => false
  end.

(** A 2 by 2 block read at the offset [(dx, dy)] from its top left cell. *)
Definition block_off (dx dy : Z) : bool :=
  (0 <=? dx) && (dx <=? 1) && ((0 <=? dy) && (dy <=? 1)).

(** A 2 by 2 block whose top left cell is [(cx, cy)]. *)
Definition block (cx cy x y : Z) : bool := block_off (x - cx) (y - cy).

(** The number of block cells around the offset [(dx, dy)]. *)
Definition block_count (dx dy : Z) : Z :=
  Z.b2z (block_off dx (dy - 1))
  + Z.b2z (block_off (dx + 1) (dy - 1))
  + Z.b2z (block_off (dx + 1) dy)
  + Z.b2z (block_off (dx + 1) (dy + 1))
  + Z.b2z (block_off dx (dy + 1))
  + Z.b2z (block_off (dx - 1) (dy + 1))
  + Z.b2z (block_off (dx - 1) dy)
  + Z.b2z (block_off (dx - 1) (dy - 1)).

(** ** The batch entry point [next_state] *)

(** A Python [str]: the list of its code points. *)
Abbreviation str := (list N) (only parsing).

(** The [Config] dictionary. *)
Record Config : Type := mkConfig {
  halott_sejt : str;
  elo_sejt : str;
  tabla : list (list str)
}.

(** [len(l)] *)
Definition len {A} (l : list A) : Z := Z.of_nat (length l).

(** The loop of [next_state] that copies the table into the universe. *)
Definition seed_table (config : Config) : M Universe unit :=
  forM_ (enumerate (tabla config)) (λ '(row_ptr, row),
    forM_ (enumerate row) (λ '(col_ptr, cell),
      if bool_decide (cell = elo_sejt config)
      then __setitem__ (col_ptr, row_ptr) true
      else ret tt)).

(** The loop of [next_state] that overwrites every entry of the matrix
    [to_list] returned, at its own index, with one of the two markers. *)
Definition relabel (config : Config) (table : list (list bool)) : list (list str) :=
  (λ row : list bool, (λ is_alive : bool,
             if is_alive then elo_sejt config else halott_sejt config) <$> row)
  <$> table.

(** The body of [next_state], run on the universe it creates. *)
Definition next_state_run (config : Config) : M Universe Config :=
  row0 ← getitem (tabla config) 0;
  let width := len row0 in
  let height := len (tabla config) in
  Universe__init__ width height;;
  seed_table config;;
  tick;;
  table ← to_list;
  ret (mkConfig (halott_sejt config) (elo_sejt config) (relabel config table)).

(** [next_state(config)] *)
Definition next_state (config : Config) : Res Config :=
  fst (next_state_run config (mkUniverse [] [] [])).

(** The table entry at column [x] of row [y] is the alive marker. *)
Definition cfg_alive (config : Config) (x y : Z) : bool :=
  if (0 <=? x) && (0 <=? y) then
    match tabla config !! Z.to_nat y ≫= (λ row, row !! Z.to_nat x) with
    | Some cell => bool_decide (cell = elo_sejt config)
    | None => false
    end
  else false.

(** The number of alive markers around [(x, y)] in the table. *)
Definition cfg_count (config : Config) (x y : Z) : Z :=
  Z.b2z (cfg_alive config x (y - 1))
  + Z.b2z (cfg_alive config (x + 1) (y - 1))
  + Z.b2z (cfg_alive config (x + 1) y)
  + Z.b2z (cfg_alive config (x + 1) (y + 1))
  + Z.b2z (cfg_alive config x (y + 1))
  + Z.b2z (cfg_alive config (x - 1) (y + 1))
  + Z.b2z (cfg_alive config (x - 1) y)
  + Z.b2z (cfg_alive config (x - 1) (y - 1)).

(** Conway's rule at [(x, y)], read off the table. *)
Definition cfg_next (config : Config) (x y : Z) : bool :=
  if cfg_alive config x y
  then (cfg_count config x y =? 2) || (cfg_count config x y =? 3)
  else cfg_count config x y =? 3.

(** [enumerate] counting from [j]. *)
Fixpoint enum_from {A} (j : nat) (l : list A) : list (Z * A) :=
  match l with
  | [] => []
  | a :: l' => (Z.of_nat j, a) :: enum_from (S j) l'
  end.

(** A 3 by 3 table holding a plus shape, with the markers [X] and [.]. *)
Definition plus_config : Config :=
  mkConfig [46%N] [88%N]
    [ [[46%N]; [88%N]; [46%N]];
      [[88%N]; [88%N]; [88%N]];
      [[46%N]; [88%N]; [46%N]] ].

(** A table whose second row holds an alive marker beyond the first row. *)
Definition ragged_config : Config :=
  mkConfig [46%N] [88%N] [ [[46%N]]; [[46%N]; [88%N]] ].

(** ** The configuration reader [read_config_file] *)

(** The exceptions of the reader: those of the engine and three more. *)
Inductive pyexn : Set :=
  | Exn (e : exn)
  | StopIteration
  | AttributeError
  | ValueError.

Inductive Outcome (A : Type) : Type :=
  | Returns (a : A)
  | Raises (e : pyexn).
Arguments Returns {A} a.
Arguments Raises {A} e.

(** [c.isspace()] for a code point, which is also the class [\s] of [re] on
    [str] patterns. *)
Definition isspace (c : N) : bool :=
  ((9 <=? c) && (c <=? 13))%N || ((28 <=? c) && (c <=? 32))%N
  || (c =? 133)%N || (c =? 160)%N || (c =? 5760)%N
  || ((8192 <=? c) && (c <=? 8202))%N
  || (c =? 8232)%N || (c =? 8233)%N || (c =? 8239)%N || (c =? 8287)%N
  || (c =? 12288)%N.

(** [s.lstrip()] *)
Fixpoint lstrip (s : str) : str :=
  match s with
  | [] => []
  | c :: s' => if isspace c then lstrip s' else s
  end.

(** [s.strip()] *)
Definition strip (s : str) : str := reverse (lstrip (reverse (lstrip s))).

(** [s.startswith(p)] *)
Definition startswith (p s : str) : bool := bool_decide (take (length p) s = p).

(** A string literal of the source as code points. *)
Definition lit (s : string) : str :=
  Ascii.N_of_ascii <$> String.list_ascii_of_string s.

(** The one-character string holding a double quote. *)
Definition quote : str := [34%N].

(** [re.match(r'^<key>\s*"(.)"$', line)], giving group 1: after the key
    and the longest run of whitespace come a quote, one character other
    than a newline, a quote, and the end of the line or a last newline. *)
Definition re_match (key line : str) : option str :=
  if startswith key line then
    match lstrip (drop (length key) line) with
    | [q1; c; q2] =>
        if bool_decide (q1 = 34%N ∧ c ≠ 10%N ∧ q2 = 34%N)
        then Some [c] else None
    | [q1; c; q2; nl] =>
        if bool_decide (q1 = 34%N ∧ c ≠ 10%N ∧ q2 = 34%N ∧ nl = 10%N)
        then Some [c] else None
    | _ => None
    end
  else None.

(** The local variables of the reading loop. *)
Record ReadState : Type := mkReadState {
  table_lines : list str;
  not_alive_char : option str;
  alive_char : option str
}.

(** The loop over the lines of the file, [read_lines], and the loop over the
    lines of a table inside it, [read_table], which takes its lines from
    the same iterator: when it breaks, the outer loop goes on with the line
    after the closing quote, and when it runs the file out, the outer loop
    ends too. *)
Fixpoint read_lines (f : list str) (st : ReadState) : Outcome ReadState :=
  match f with
  | [] => Returns st
  | line :: f1 =>
      let line := strip line in
      if startswith (lit "tabla:") line then
        match f1 with
        | [] => Raises StopIteration
        | next_line :: f2 =>
            if bool_decide (strip next_line = quote)
            then read_table f2 st
            else Raises (Exn AssertionError)
        end
      else
        match re_match (lit "halott_sejt:") line with
        | Some c =>
            read_lines f1 (mkReadState (table_lines st) (Some (strip c))
                                       (alive_char st))
        | None =>
            match re_match (lit "elo_sejt:") line with
            | Some c =>
                read_lines f1 (mkReadState (table_lines st) (not_alive_char st)
                                           (Some (strip c)))
            | None => read_lines f1 st
            end
        end
  end
with read_table (f : list str) (st : ReadState) : Outcome ReadState :=
  match f with
  | [] => Returns st
  | table_line :: f1 =>
      let table_line := strip table_line in
      if bool_decide (table_line = quote)
      then read_lines f1 st
      else read_table f1 (mkReadState (table_lines st ++ [table_line])
                                      (not_alive_char st) (alive_char st))
  end.

(** The loop that checks the table lines and splits them into cells. *)
Fixpoint check_lines (lines : list str) (alive dead : str)
    (table : list (list str)) (table_line_lengths : gset nat)
    : Outcome Config :=
  match lines with
  | [] => Returns (mkConfig dead alive table)
  | table_line :: rest =>
      let line_chars : list str := (λ c, [c]) <$> table_line in
      if bool_decide (list_to_set line_chars ∖ {[alive; dead]} ≠ (∅ : gset (list N)))
      then Raises ValueError
      else
        let table_line_lengths := {[length line_chars]} ∪ table_line_lengths in
        if negb (Nat.eqb (size table_line_lengths) 1)
        then Raises ValueError
        else check_lines rest alive dead (table ++ [line_chars]) table_line_lengths
  end.

(** [not s] for [s] a [str] or [None]. *)
Definition falsy (s : option str) : bool :=
  match s with
  | None | Some [] => true
  | Some _ => false
  end.

(** [read_config_file], on the lines the file yields. *)
Definition read_config_file (f : list str) : Outcome Config :=
  match read_lines f (mkReadState [] None None) with
  | Raises e => Raises e
  | Returns st =>
      if falsy (alive_char st) then Raises AttributeError
      else if falsy (not_alive_char st) then Raises AttributeError
      else check_lines (table_lines st) (default [] (alive_char st))
                       (default [] (not_alive_char st)) [] ∅
  end.

(** A small configuration file: the two markers and a plus shape. *)
Definition plus_file : list str :=
  [ lit "halott_sejt: " ++ quote ++ lit "." ++ quote ++ [10%N];
    lit "elo_sejt: " ++ quote ++ lit "X" ++ quote ++ [10%N];
    lit "tabla:" ++ [10%N];
    quote ++ [10%N];
    lit ".X." ++ [10%N];
    lit "XXX" ++ [10%N];
    lit ".X." ++ [10%N];
    quote ++ [10%N] ].

(** What the reading loop can leave in a marker variable: [None], the empty
    string, or one character that is not whitespace. *)
Definition marker (o : option str) : Prop :=
  o = None ∨ o = Some [] ∨ ∃ c, o = Some [c] ∧ isspace c = false.

(** [list(table_line)]: the one-character strings of a line. *)
Definition chars (table_line : str) : list str := (λ c, [c]) <$> table_line.

(** The configurations a caller can rely on: each marker is one character
    that is not whitespace, every cell of the table is one of the two
    markers, and all rows have the same length. *)
Definition well_formed (c : Config) : Prop :=
  (∃ a, elo_sejt c = [a] ∧ isspace a = false)
  ∧ (∃ d, halott_sejt c = [d] ∧ isspace d = false)
  ∧ (∀ row cell, row ∈ tabla c → cell ∈ row →
       cell = elo_sejt c ∨ cell = halott_sejt c)
  ∧ (∀ r1 r2, r1 ∈ tabla c → r2 ∈ tabla c → length r1 = length r2).

(** A line that does not open a table. *)
Definition plain (line : str) : Prop :=
  startswith (lit "tabla:") (strip line) = false.

(** The lines of a configuration file in the usual layout: the dead marker
    [d], the alive marker [a], and a table whose rows are [rows]. *)
Definition config_file (a d : N) (rows : list str) : list str :=
  (lit "halott_sejt: " ++ quote ++ [d] ++ quote ++ [10%N])
  :: (lit "elo_sejt: " ++ quote ++ [a] ++ quote ++ [10%N])
  :: (lit "tabla:" ++ [10%N])
  :: (quote ++ [10%N])
  :: ((λ row, row ++ [10%N]) <$> rows) ++ [ quote ++ [10%N] ].

(** The matrix [to_list] returns for a [W] by [H] grid with states [b]. *)
Definition matrix (W H : nat) (b : nat → bool) : list (list bool) :=
  (λ y : nat, (λ x : nat, b (y * W + x)%nat) <$> seq 0 W) <$> seq 0 H.

(** ** The method monad *)

Lemma bind_run {S A B} (m : M S A) (f : A → M S B) s :
  (m ≫= f) s = match m s with
               | (Ok a, s') => f a s'
               | (Raise e, s') => (Raise e, s')
               end.
Proof. reflexivity. Qed.

Lemma bind_ok {S A B} (m : M S A) (f : A → M S B) s a s' :
  m s = (Ok a, s') → (m ≫= f) s = f a s'.
Proof. intros E. rewrite bind_run, E. reflexivity. Qed.

Lemma bind_raise {S A B} (m : M S A) (f : A → M S B) s e s' :
  m s = (Raise e, s') → (m ≫= f) s = (Raise e, s').
Proof. intros E. rewrite bind_run, E. reflexivity. Qed.

Lemma forM__cons {S A} (a : A) l (f : A → M S unit) s :
  forM_ (a :: l) f s = (f a ≫= λ _, forM_ l f) s.
Proof. reflexivity. Qed.

Lemma forM__fmap {S A B} (g : A → B) (f : B → M S unit) l s :
  forM_ (g <$> l) f s = forM_ l (λ a, f (g a)) s.
Proof.
  revert s. induction l as [|a l IH]; intros s; [reflexivity|].
  rewrite fmap_cons, !forM__cons, !bind_run.
  destruct (f (g a) s) as [[[]|e] s']; [apply IH | reflexivity].
Qed.

Lemma forM__ext {S A} (f g : A → M S unit) l s :
  (∀ a s', f a s' = g a s') → forM_ l f s = forM_ l g s.
Proof.
  intros E. revert s. induction l as [|a l IH]; intros s; [reflexivity|].
  rewrite !forM__cons, !bind_run, E.
  destruct (g a s) as [[[]|e] s']; [apply IH | reflexivity].
Qed.

(** ** The store *)

Lemma universe_eta u : mkUniverse (store u) (_board u) (_cells u) = u.
Proof. by destruct u. Qed.

Lemma set_cell_id r c u : store u !! r = Some c → set_cell r c u = u.
Proof.
  intros E. unfold set_cell, with_store.
  rewrite list_insert_id by done. apply universe_eta.
Qed.

Lemma set_cell_twice r c c' u : set_cell r c (set_cell r c' u) = set_cell r c u.
Proof.
  unfold set_cell, with_store; simpl. by rewrite list_insert_insert_eq.
Qed.

Lemma set_cell_lookup r c u :
  (r < length (store u))%nat → store (set_cell r c u) !! r = Some c.
Proof. intros Hr. simpl. by apply list_lookup_insert_eq. Qed.

Lemma at_cell_run {A} r (m : M Cell A) u c res c' :
  store u !! r = Some c → m c = (res, c') →
  at_cell r m u = (res, set_cell r c' u).
Proof. intros E Em. unfold at_cell. rewrite E, Em. reflexivity. Qed.

Lemma at_cell_gets {A} r (f : Cell → A) u c :
  store u !! r = Some c → at_cell r (gets f) u = (Ok (f c), u).
Proof.
  intros E. rewrite (at_cell_run r _ u c (Ok (f c)) c E) by reflexivity.
  by rewrite set_cell_id.
Qed.

(** ** Grids *)

Lemma grid_lookup w h f i :
  (i < ncells w h)%nat → store (grid w h f) !! i = Some (f i).
Proof.
  intros Hi. simpl. rewrite list_lookup_fmap, lookup_seq_lt by done. done.
Qed.

Lemma grid_length w h f : length (store (grid w h f)) = ncells w h.
Proof. simpl. by rewrite length_fmap, length_seq. Qed.

Lemma grid_ext w h f g :
  (∀ i, (i < ncells w h)%nat → f i = g i) → grid w h f = grid w h g.
Proof.
  intros E. unfold grid. f_equal. apply list_eq. intros i.
  rewrite !list_lookup_fmap.
  destruct (decide (i < ncells w h)%nat) as [Hi|Hi].
  - rewrite lookup_seq_lt by done. simpl. f_equal. by apply E.
  - rewrite lookup_seq_ge by lia. done.
Qed.

Lemma grid_set_cell w h f g i c :
  (i < ncells w h)%nat → g i = c →
  (∀ j, (j < ncells w h)%nat → j ≠ i → g j = f j) →
  set_cell i c (grid w h f) = grid w h g.
Proof.
  intros Hi Hc Hg. unfold set_cell, grid, with_store; simpl. f_equal.
  apply list_eq. intros j. destruct (decide (i = j)) as [->|Hne].
  - rewrite list_lookup_insert_eq by (by rewrite length_fmap, length_seq).
    rewrite list_lookup_fmap, lookup_seq_lt by done. simpl. by rewrite Hc.
  - rewrite list_lookup_insert_ne by done. rewrite !list_lookup_fmap.
    destruct (decide (j < ncells w h)%nat) as [Hj|Hj].
    + rewrite lookup_seq_lt by done. simpl. f_equal. symmetry. by apply Hg.
    + rewrite lookup_seq_ge by lia. done.
Qed.

Lemma ref_lt w h (x y : nat) :
  (x < Z.to_nat w)%nat → (y < Z.to_nat h)%nat →
  (y * Z.to_nat w + x < ncells w h)%nat.
Proof. unfold ncells. nia. Qed.

Lemma col_of_ref w (x y : nat) :
  (x < Z.to_nat w)%nat → col_of w (y * Z.to_nat w + x) = Z.of_nat x.
Proof.
  intros Hx. unfold col_of. f_equal.
  rewrite Nat.add_comm, Nat.Div0.mod_add. by apply Nat.mod_small.
Qed.

Lemma row_of_ref w (x y : nat) :
  (x < Z.to_nat w)%nat → row_of w (y * Z.to_nat w + x) = Z.of_nat y.
Proof.
  intros Hx. unfold row_of. f_equal.
  rewrite Nat.add_comm, Nat.div_add by lia.
  rewrite Nat.div_small by done. done.
Qed.

Lemma ref_coords w h (i : nat) :
  (i < ncells w h)%nat →
  (i mod Z.to_nat w < Z.to_nat w)%nat ∧ (i / Z.to_nat w < Z.to_nat h)%nat ∧
  i = (i / Z.to_nat w * Z.to_nat w + i mod Z.to_nat w)%nat.
Proof.
  unfold ncells. intros Hi.
  assert (Z.to_nat w ≠ 0)%nat as Hw by (intros E; rewrite E in Hi; lia).
  split; [by apply Nat.mod_upper_bound|]. split.
  - apply Nat.Div0.div_lt_upper_bound. lia.
  - rewrite (Nat.div_mod_eq i (Z.to_nat w)) at 1. lia.
Qed.

(** ** The constructor, first pass *)

Lemma range_seq n : range n = (λ i : nat, Z.of_nat i + 0) <$> seq 0 (Z.to_nat n).
Proof. reflexivity. Qed.

Lemma alter_last {A} (f : A → A) (k : nat) (B : list A) (r : A) :
  length B = k → alter f k (B ++ [r]) = B ++ [f r].
Proof.
  intros <-. rewrite <- (Nat.add_0_r (length B)). by rewrite alter_app_r.
Qed.

Lemma create_cell_run (c : Cell) (k : nat) u :
  (cell ← alloc c; row_append k cell;; cells_append cell) u
  = (Ok tt,
     mkUniverse (store u ++ [c])
                (alter (λ r, r ++ [length (store u)]) k (_board u))
                (_cells u ++ [length (store u)])).
Proof. reflexivity. Qed.

Lemma create_row_run w (k : nat) (B : list (list ref)) (n j : nat) :
  length B = k → (j + n = Z.to_nat w)%nat →
  forM_ (seq j n) (λ a : nat,
      cell ← alloc (Cell__init__ false (Z.of_nat a + 0) (Z.of_nat k + 0));
      row_append k cell;;
      cells_append cell)
    (mkUniverse (fresh w <$> seq 0 (k * Z.to_nat w + j))
                (B ++ [seq (k * Z.to_nat w) j])
                (seq 0 (k * Z.to_nat w + j)))
  = (Ok tt,
     mkUniverse (fresh w <$> seq 0 (k * Z.to_nat w + (j + n)))
                (B ++ [seq (k * Z.to_nat w) (j + n)])
                (seq 0 (k * Z.to_nat w + (j + n)))).
Proof.
  intros HB. revert j. induction n as [|n IH]; intros j Hj.
  - simpl. by rewrite Nat.add_0_r.
  - rewrite <- cons_seq, forM__cons, bind_run, create_cell_run.
    cbn [store _board _cells].
    rewrite length_fmap, length_seq, (alter_last _ k) by done.
    rewrite <- !seq_S.
    replace ((fresh w <$> seq 0 (k * Z.to_nat w + j)) ++
               [Cell__init__ false (Z.of_nat j + 0) (Z.of_nat k + 0)])
      with (fresh w <$> seq 0 (k * Z.to_nat w + S j)).
    2:{ rewrite Nat.add_succ_r, seq_S, fmap_app. simpl. do 2 f_equal.
        unfold fresh. rewrite col_of_ref, row_of_ref by lia.
        by rewrite !Z.add_0_r. }
    replace (seq 0 (k * Z.to_nat w + j) ++ [(k * Z.to_nat w + j)%nat])
      with (seq 0 (k * Z.to_nat w + S j)).
    2:{ by rewrite Nat.add_succ_r, seq_S. }
    rewrite (IH (S j)) by lia.
    by replace (S j + n)%nat with (j + S n)%nat by lia.
Qed.

Lemma create_rows_run w (n k : nat) :
  forM_ (seq k n) (λ a : nat,
      row ← board_append_row;
      forM_ (range w) (λ col_ptr,
        cell ← alloc (Cell__init__ false col_ptr (Z.of_nat a + 0));
        row_append row cell;;
        cells_append cell))
    (mkUniverse (fresh w <$> seq 0 (k * Z.to_nat w))
                (row_refs w <$> seq 0 k)
                (seq 0 (k * Z.to_nat w)))
  = (Ok tt,
     mkUniverse (fresh w <$> seq 0 ((k + n) * Z.to_nat w))
                (row_refs w <$> seq 0 (k + n))
                (seq 0 ((k + n) * Z.to_nat w))).
Proof.
  revert k. induction n as [|n IH]; intros k.
  - simpl. by rewrite Nat.add_0_r.
  - rewrite <- cons_seq, forM__cons, bind_run.
    rewrite (bind_run board_append_row).
    unfold board_append_row at 1, with_board. cbn [store _board _cells].
    rewrite length_fmap, length_seq.
    rewrite range_seq, forM__fmap.
    pose proof (create_row_run w k (row_refs w <$> seq 0 k) (Z.to_nat w) 0) as E.
    rewrite Nat.add_0_r in E. simpl in E. rewrite E; clear E.
    2:{ by rewrite length_fmap, length_seq. }
    2:{ done. }
    replace (mkUniverse (fresh w <$> seq 0 (k * Z.to_nat w + Z.to_nat w))
               ((row_refs w <$> seq 0 k) ++ [seq (k * Z.to_nat w) (Z.to_nat w)])
               (seq 0 (k * Z.to_nat w + Z.to_nat w)))
      with (mkUniverse (fresh w <$> seq 0 (S k * Z.to_nat w))
               (row_refs w <$> seq 0 (S k))
               (seq 0 (S k * Z.to_nat w))).
    2:{ rewrite seq_S, fmap_app. simpl.
        by replace (Z.to_nat w + k * Z.to_nat w)%nat
          with (k * Z.to_nat w + Z.to_nat w)%nat by lia. }
    rewrite <- range_seq, (IH (S k)).
    by replace (S k + n)%nat with (k + S n)%nat by lia.
Qed.

Lemma create_cells_run w h :
  create_cells w h (mkUniverse [] [] []) = (Ok tt, grid w h (fresh w)).
Proof.
  unfold create_cells. rewrite range_seq, forM__fmap.
  pose proof (create_rows_run w (Z.to_nat h) 0) as E. simpl in E.
  rewrite E. unfold grid, ncells, grid_board.
  by rewrite (Nat.mul_comm (Z.to_nat h)).
Qed.

(** ** The constructor, second pass *)

Lemma py_index_nat {A} (l : list A) (i : Z) :
  0 ≤ i → py_index l i = l !! Z.to_nat i.
Proof.
  intros Hi. unfold py_index. by rewrite (proj2 (Z.leb_le 0 i)).
Qed.

Lemma grid_board_lookup w h (y : nat) :
  (y < Z.to_nat h)%nat → grid_board w h !! y = Some (row_refs w y).
Proof.
  intros Hy. unfold grid_board. by rewrite list_lookup_fmap, lookup_seq_lt.
Qed.

Lemma row_refs_lookup w (x y : nat) :
  (x < Z.to_nat w)%nat → row_refs w y !! x = Some (y * Z.to_nat w + x)%nat.
Proof. intros Hx. unfold row_refs. by rewrite lookup_seq_lt. Qed.

Lemma get_neighbour_run w h x y d u :
  _board u = grid_board w h →
  get_neighbour w h x y d u = (Ok (resolve w h x y d), u).
Proof.
  intros Hb. unfold get_neighbour, resolve.
  destruct ((-1 <? x + Neighbour.x d) && (x + Neighbour.x d <? w)
            && ((-1 <? y + Neighbour.y d) && (y + Neighbour.y d <? h))) eqn:E;
    [|reflexivity].
  apply andb_prop in E as [E1 E2].
  apply andb_prop in E1 as [Ex1 Ex2]. apply andb_prop in E2 as [Ey1 Ey2].
  apply Z.ltb_lt in Ex1, Ex2, Ey1, Ey2.
  rewrite bind_run. unfold gets at 1. rewrite Hb.
  unfold getitem. rewrite !bind_run.
  rewrite py_index_nat, grid_board_lookup by lia.
  unfold ret at 1.
  rewrite py_index_nat, row_refs_lookup by lia.
  reflexivity.
Qed.

Lemma wire_run w h x y i d u c :
  _board u = grid_board w h → store u !! i = Some c →
  wire w h x y i d u
  = (Ok tt, set_cell i (with_neighbours
                (Neighbour.__set__ d (resolve w h x y d) (neighbours c)) c) u).
Proof.
  intros Hb Hc. unfold wire.
  rewrite (bind_ok _ _ _ _ _ (get_neighbour_run w h x y d u Hb)).
  unfold set_neighbour. by apply (at_cell_run i _ u c).
Qed.

Lemma wire_cell_run w h x y i u c :
  _board u = grid_board w h → store u !! i = Some c →
  wire_cell w h x y i u
  = (Ok tt, set_cell i (with_neighbours
        (foldl (λ m d, Neighbour.__set__ d (resolve w h x y d) m)
               (neighbours c) Neighbours.all) c) u).
Proof.
  intros Hb Hc. unfold wire_cell.
  assert (i < length (store u))%nat as Hi by (by eapply lookup_lt_Some).
  erewrite bind_ok; [|eapply wire_run; [exact Hb|exact Hc]].
  do 6 (erewrite bind_ok;
    [|eapply wire_run; [exact Hb|apply set_cell_lookup; exact Hi]];
    rewrite set_cell_twice).
  erewrite wire_run; [|exact Hb|apply set_cell_lookup; exact Hi].
  rewrite set_cell_twice. reflexivity.
Qed.

Lemma enumerate_fmap_seq {A} (F : nat → A) (n : nat) :
  enumerate (F <$> seq 0 n) = (λ i : nat, (Z.of_nat i, F i)) <$> seq 0 n.
Proof.
  apply list_eq. intros i. unfold enumerate.
  rewrite list_lookup_imap, !list_lookup_fmap.
  by destruct (seq 0 n !! i) eqn:E; [apply lookup_seq in E as [-> _]|].
Qed.

Lemma row_refs_fmap w (k : nat) :
  row_refs w k = (λ a : nat, (k * Z.to_nat w + a)%nat) <$> seq 0 (Z.to_nat w).
Proof.
  unfold row_refs.
  by rewrite (fmap_add_seq (k * Z.to_nat w) 0), Nat.add_0_r.
Qed.

Lemma wired_cell w h (x y : nat) :
  (x < Z.to_nat w)%nat →
  with_neighbours
    (foldl (λ m d, Neighbour.__set__ d (resolve w h (Z.of_nat x) (Z.of_nat y) d) m)
           (neighbours (fresh w (y * Z.to_nat w + x))) Neighbours.all)
    (fresh w (y * Z.to_nat w + x))
  = gcell w h (λ _, Some 0) (λ _, None) (y * Z.to_nat w + x).
Proof.
  intros Hx. unfold gcell, fresh, with_neighbours, wiring, Cell__init__.
  cbn [_state _state_dirty pos_x pos_y neighbours].
  by rewrite col_of_ref, row_of_ref.
Qed.

Lemma wire_row_run w h (k n j : nat) :
  (k < Z.to_nat h)%nat → (j + n = Z.to_nat w)%nat →
  forM_ (seq j n)
    (λ a : nat, wire_cell w h (Z.of_nat a) (Z.of_nat k) (k * Z.to_nat w + a)%nat)
    (grid w h (wired_upto w h (k * Z.to_nat w + j)))
  = (Ok tt, grid w h (wired_upto w h (k * Z.to_nat w + (j + n)))).
Proof.
  intros Hk. revert j. induction n as [|n IH]; intros j Hj.
  - simpl. by rewrite Nat.add_0_r.
  - rewrite <- cons_seq, forM__cons.
    assert (k * Z.to_nat w + j < ncells w h)%nat as Hi by (apply ref_lt; lia).
    erewrite bind_ok.
    2:{ eapply wire_cell_run; [reflexivity|]. by apply grid_lookup. }
    rewrite (grid_set_cell w h _ (wired_upto w h (k * Z.to_nat w + S j))
               (k * Z.to_nat w + j)%nat); [| done | |].
    + rewrite (IH (S j)) by lia.
      by replace (S j + n)%nat with (j + S n)%nat by lia.
    + unfold wired_upto. rewrite decide_True by lia.
      rewrite decide_False by lia. symmetry. apply wired_cell. lia.
    + intros i _ Hne. unfold wired_upto.
      destruct (decide (i < k * Z.to_nat w + S j)%nat);
        destruct (decide (i < k * Z.to_nat w + j)%nat); done || lia.
Qed.

Lemma wire_rows_run w h (n k : nat) :
  (k + n = Z.to_nat h)%nat →
  forM_ (seq k n)
    (λ a : nat, forM_ (enumerate (row_refs w a))
       (λ '(col_ptr, cell), wire_cell w h col_ptr (Z.of_nat a) cell))
    (grid w h (wired_upto w h (k * Z.to_nat w)))
  = (Ok tt, grid w h (wired_upto w h ((k + n) * Z.to_nat w))).
Proof.
  revert k. induction n as [|n IH]; intros k Hk.
  - simpl. by rewrite Nat.add_0_r.
  - rewrite <- cons_seq, forM__cons.
    erewrite bind_ok.
    2:{ rewrite row_refs_fmap, enumerate_fmap_seq, forM__fmap.
        pose proof (wire_row_run w h k (Z.to_nat w) 0) as E.
        rewrite Nat.add_0_r in E. apply E; lia. }
    replace (k * Z.to_nat w + (0 + Z.to_nat w))%nat
      with (S k * Z.to_nat w)%nat by lia.
    rewrite (IH (S k)) by lia.
    by replace (S k + n)%nat with (k + S n)%nat by lia.
Qed.

Lemma wire_cells_run w h :
  wire_cells w h (grid w h (fresh w))
  = (Ok tt, grid w h (gcell w h (λ _, Some 0) (λ _, None))).
Proof.
  unfold wire_cells. rewrite bind_run. unfold gets at 1.
  cbn [_board grid]. unfold grid_board at 1.
  rewrite enumerate_fmap_seq, forM__fmap.
  rewrite (grid_ext w h (fresh w) (wired_upto w h (0 * Z.to_nat w))).
  2:{ intros i _. unfold wired_upto. by rewrite decide_False by lia. }
  pose proof (wire_rows_run w h (Z.to_nat h) 0) as E. simpl in E.
  etransitivity; [apply E; lia|]. f_equal. apply grid_ext.
  intros i Hi. unfold wired_upto. rewrite decide_True; [done|].
  unfold ncells in Hi. lia.
Qed.

Lemma construct_run w h : construct w h = (Ok tt, life w h (λ _, false)).
Proof.
  unfold construct, Universe__init__.
  rewrite (bind_ok _ _ _ _ _ (create_cells_run w h)).
  apply wire_cells_run.
Qed.

(** ** Neighbour dictionaries *)

Lemma lookup_set d o (m : gmap string nat) k :
  Neighbour.__set__ d o m !! k
  = if decide (k = Neighbour._name d) then from_option Some (m !! k) o else m !! k.
Proof.
  unfold Neighbour.__set__. destruct o as [r|]; simpl.
  - rewrite lookup_insert. repeat case_decide; congruence.
  - by case_decide.
Qed.

Lemma wiring_lookup w h x y d :
  d ∈ Neighbours.all →
  wiring w h x y !! Neighbour._name d = resolve w h x y d.
Proof.
  unfold wiring, Neighbours.all. cbn [foldl]. intros Hd.
  rewrite !lookup_set, lookup_empty.
  repeat (apply elem_of_cons in Hd as [->|Hd]);
    [..|by apply elem_of_nil in Hd];
    cbn [Neighbour._name Neighbours.top Neighbours.top_right Neighbours.right
         Neighbours.bottom_right Neighbours.bottom Neighbours.bottom_left
         Neighbours.left Neighbours.top_left];
    repeat (case_decide; [try discriminate|try congruence]).
  all: try by destruct (resolve _ _ _ _ _).
Qed.

(** ** Counting live neighbours *)

Lemma resolve_lt w h x y d r :
  resolve w h x y d = Some r → (r < ncells w h)%nat.
Proof.
  unfold resolve.
  destruct ((-1 <? x + Neighbour.x d) && (x + Neighbour.x d <? w)
            && ((-1 <? y + Neighbour.y d) && (y + Neighbour.y d <? h))) eqn:E;
    [|discriminate].
  apply andb_prop in E as [E1 E2].
  apply andb_prop in E1 as [Ex1 Ex2]. apply andb_prop in E2 as [Ey1 Ey2].
  apply Z.ltb_lt in Ex1, Ex2, Ey1, Ey2.
  intros [= <-]. apply ref_lt; lia.
Qed.

Lemma truthy_b2z b : truthy (Some (Z.b2z b)) = b.
Proof. by destruct b. Qed.

Ltac in_all := apply list_elem_of_In; simpl; intuition.

Section Counting.
Variables (w h : Z) (b : nat → bool) (dt : nat → option Z).

Abbreviation u := (grid w h (gcell w h (λ i, Some (Z.b2z (b i))) dt)).

Lemma obj_state_run i d :
  d ∈ Neighbours.all →
  obj_state (Neighbour.__get__ d (wiring w h (col_of w i) (row_of w i))) u
  = (Ok (Some (nbval w h b i d)), u).
Proof.
  intros Hd. unfold Neighbour.__get__, nbval.
  rewrite wiring_lookup by done.
  destruct (resolve w h (col_of w i) (row_of w i) d) as [r|] eqn:E;
    [|reflexivity].
  apply resolve_lt in E. unfold obj_state.
  by rewrite (at_cell_gets r _ u _ (grid_lookup w h _ r E)).
Qed.

Lemma get_alive_count_run i :
  Neighbours.get_alive_count (wiring w h (col_of w i) (row_of w i)) u
  = (Ok (Some (nbcount w h b i)), u).
Proof.
  unfold Neighbours.get_alive_count, nbcount.
  repeat (erewrite bind_ok;
    [|first [apply obj_state_run; in_all | reflexivity]]).
  reflexivity.
Qed.
End Counting.

(** ** [tick] on a stable grid *)

Section Tick.
Variables (w h : Z) (b : nat → bool).

Lemma staging_0 : staging w h b 0 = life w h b.
Proof. apply grid_ext. intros i _. unfold gcell. by rewrite decide_False by lia. Qed.

Lemma staging_skip k : staged w h b k = None → staging w h b k = staging w h b (S k).
Proof.
  intros E. apply grid_ext. intros i _. unfold gcell. f_equal.
  destruct (decide (i < k)%nat); destruct (decide (i < S k)%nat);
    try done; try lia.
  by replace i with k by lia.
Qed.

Lemma stage_run k v :
  (k < ncells w h)%nat → staged w h b k = Some (Z.b2z v) →
  at_cell k (set_is_alive v) (staging w h b k) = (Ok tt, staging w h b (S k)).
Proof.
  intros Hk E. unfold staging at 1.
  erewrite at_cell_run; [|by apply grid_lookup|].
  2:{ unfold set_is_alive. rewrite bind_run. unfold gets at 1.
      cbn [gcell _state_dirty]. rewrite decide_False by lia. reflexivity. }
  f_equal. apply grid_set_cell; [done| |].
  - unfold gcell, with_state_dirty. cbn [_state pos_x pos_y neighbours].
    by rewrite decide_True, E by lia.
  - intros j _ Hne. unfold gcell. f_equal.
    destruct (decide (j < k)%nat); destruct (decide (j < S k)%nat);
      done || lia.
Qed.

Lemma tick_cell_run k changed :
  (k < ncells w h)%nat →
  tick_cell changed k (staging w h b k)
  = (Ok (if touched w h b k then changed ++ [k] else changed),
     staging w h b (S k)).
Proof.
  intros Hk. unfold tick_cell.
  erewrite bind_ok; [|unfold staging; apply at_cell_gets; by apply grid_lookup].
  cbn [neighbours gcell].
  erewrite bind_ok; [|unfold staging; apply get_alive_count_run].
  erewrite bind_ok; [|unfold staging; apply at_cell_gets; by apply grid_lookup].
  cbn [_state gcell]. rewrite truthy_b2z.
  unfold py_eq.
  destruct (b k) eqn:Eb.
  - assert (staged w h b k
            = Some (Z.b2z ((nbcount w h b k =? 2) || (nbcount w h b k =? 3))))
      as Es by (unfold staged, touched, next_alive; by rewrite Eb).
    unfold touched; rewrite Eb; simpl.
    destruct ((nbcount w h b k =? 2) || (nbcount w h b k =? 3)); simpl;
      by erewrite bind_ok; [|by apply stage_run].
  - unfold touched; rewrite Eb; simpl.
    destruct (nbcount w h b k =? 3) eqn:E3.
    + erewrite bind_ok; [reflexivity|]. apply stage_run; [done|].
      unfold staged, touched, next_alive. by rewrite Eb, E3.
    + unfold ret. f_equal. apply staging_skip.
      unfold staged, touched. by rewrite Eb, E3.
Qed.

Lemma stage_loop n : ∀ k changed,
  (k + n ≤ ncells w h)%nat →
  foldM tick_cell (seq k n) changed (staging w h b k)
  = (Ok (changed ++ filter (touched w h b) (seq k n)), staging w h b (k + n)).
Proof.
  induction n as [|n IH]; intros k changed Hk.
  - simpl. by rewrite app_nil_r, Nat.add_0_r.
  - rewrite <- cons_seq. simpl foldM.
    change (bind ?m ?f) with (m ≫= f).
    rewrite (bind_ok _ _ _ _ _ (tick_cell_run k changed ltac:(lia))).
    rewrite IH by lia. rewrite filter_cons.
    replace (S k + n)%nat with (k + S n)%nat by lia. f_equal. f_equal.
    destruct (touched w h b k); simpl; [by rewrite <- app_assoc | done].
Qed.

Lemma committing_0 : committing w h b 0 = staging w h b (ncells w h).
Proof.
  apply grid_ext. intros i Hi. unfold gcell.
  rewrite !decide_False by lia. by rewrite decide_True by lia.
Qed.

Lemma committing_all : committing w h b (ncells w h) = life w h (next_alive w h b).
Proof.
  apply grid_ext. intros i Hi. unfold gcell. by rewrite !decide_True by lia.
Qed.

Lemma committing_skip k :
  touched w h b k = false → committing w h b k = committing w h b (S k).
Proof.
  intros E. apply grid_ext. intros i _. unfold gcell.
  destruct (decide (i < k)%nat); destruct (decide (i < S k)%nat);
    try done; try lia.
  replace i with k by lia.
  unfold staged, next_alive. rewrite E.
  unfold touched in E. apply orb_false_elim in E as [-> ->]. done.
Qed.

Lemma commit_run k :
  (k < ncells w h)%nat → touched w h b k = true →
  at_cell k commit (committing w h b k) = (Ok tt, committing w h b (S k)).
Proof.
  intros Hk E. unfold committing at 1.
  erewrite at_cell_run; [|by apply grid_lookup|reflexivity].
  f_equal. apply grid_set_cell; [done| |].
  - unfold gcell, with_state_dirty, with_state.
    cbn [_state _state_dirty pos_x pos_y neighbours].
    rewrite !(decide_True (P := (k < S k)%nat)) by lia.
    rewrite decide_False by lia.
    unfold staged. by rewrite E.
  - intros j _ Hne. unfold gcell.
    destruct (decide (j < k)%nat); destruct (decide (j < S k)%nat);
      done || lia.
Qed.

Lemma commit_loop n : ∀ k,
  (k + n ≤ ncells w h)%nat →
  forM_ (filter (touched w h b) (seq k n)) (λ cell, at_cell cell commit)
    (committing w h b k)
  = (Ok tt, committing w h b (k + n)).
Proof.
  induction n as [|n IH]; intros k Hk.
  - simpl. by rewrite Nat.add_0_r.
  - rewrite <- cons_seq, filter_cons.
    replace (k + S n)%nat with (S k + n)%nat by lia.
    destruct (touched w h b k) eqn:E.
    + rewrite decide_True by done. rewrite forM__cons.
      rewrite (bind_ok _ _ _ _ _ (commit_run k ltac:(lia) E)).
      apply IH. lia.
    + rewrite decide_False by (by intros []).
      rewrite committing_skip by done. apply IH. lia.
Qed.

(** One [tick] of a stable grid: the cells it returns and the universe
    it leaves. *)
Lemma tick_run :
  tick (life w h b)
  = (Ok (filter (touched w h b) (seq 0 (ncells w h))),
     life w h (next_alive w h b)).
Proof.
  unfold tick. rewrite bind_run. unfold gets at 1.
  cbn [_cells life grid].
  change (grid w h (gcell w h (λ i, Some (Z.b2z (b i))) (λ _, None)))
    with (life w h b).
  rewrite <- staging_0.
  erewrite bind_ok; [|apply stage_loop; lia].
  rewrite app_nil_l, Nat.add_0_l, <- committing_0.
  erewrite bind_ok; [|apply commit_loop; lia].
  by rewrite Nat.add_0_l, committing_all.
Qed.
End Tick.

(** ** Reading a stable grid *)

Lemma mapM_pure {S A B} (f : A → M S B) (g : A → B) (l : list A) s :
  (∀ a, a ∈ l → f a s = (Ok (g a), s)) → mapM f l s = (Ok (g <$> l), s).
Proof.
  induction l as [|a l IH]; intros Hf; [reflexivity|].
  simpl. unfold bind. rewrite (Hf a) by left.
  rewrite IH; [reflexivity|]. intros a' Ha'. apply Hf. by right.
Qed.

Lemma in_grid_spec w h x y :
  in_grid w h x y = true ↔ 0 ≤ x < w ∧ 0 ≤ y < h.
Proof.
  unfold in_grid. rewrite !andb_true_iff, !Z.ltb_lt. lia.
Qed.

Lemma in_grid_true w h x y : 0 ≤ x < w → 0 ≤ y < h → in_grid w h x y = true.
Proof. intros. by apply in_grid_spec. Qed.

Lemma in_grid_false w h x y :
  ¬ (0 ≤ x < w ∧ 0 ≤ y < h) → in_grid w h x y = false.
Proof. intros Hn. apply not_true_iff_false. by rewrite in_grid_spec. Qed.

Section Reading.
Variables (w h : Z) (b : nat → bool).

Lemma ref_at_life x y :
  ref_at (life w h b) x y
  = if in_grid w h x y then Some (Z.to_nat y * Z.to_nat w + Z.to_nat x)%nat
    else None.
Proof.
  unfold ref_at. cbn [_board life grid].
  destruct (in_grid w h x y) eqn:E.
  - apply in_grid_spec in E.
    rewrite (proj2 (Z.leb_le 0 x)), (proj2 (Z.leb_le 0 y)) by lia. simpl.
    rewrite grid_board_lookup by lia. simpl.
    apply row_refs_lookup. lia.
  - destruct ((0 <=? x) && (0 <=? y)) eqn:E0; [|done].
    apply andb_prop in E0 as [Ex Ey]. apply Z.leb_le in Ex, Ey.
    destruct (grid_board w h !! Z.to_nat y) as [row|] eqn:Er; [|done].
    simpl. apply lookup_lt_Some in Er as Hy.
    unfold grid_board in Hy. rewrite length_fmap, length_seq in Hy.
    rewrite grid_board_lookup in Er by done. injection Er as <-.
    apply lookup_ge_None. unfold row_refs. rewrite length_seq.
    destruct (decide (x < w)); [|lia].
    exfalso. apply not_true_iff_false in E. apply E, in_grid_spec. lia.
Qed.

Lemma cell_at_life x y :
  cell_at (life w h b) x y
  = if in_grid w h x y
    then Some (gcell w h (λ i, Some (Z.b2z (b i))) (λ _, None)
                     (Z.to_nat y * Z.to_nat w + Z.to_nat x))
    else None.
Proof.
  unfold cell_at. rewrite ref_at_life.
  destruct (in_grid w h x y) eqn:E; [|done]. simpl.
  apply in_grid_spec in E. unfold life. apply grid_lookup, ref_lt; lia.
Qed.

Lemma alive_at_life x y :
  alive_at (life w h b) x y
  = if in_grid w h x y then b (Z.to_nat y * Z.to_nat w + Z.to_nat x)%nat
    else false.
Proof.
  unfold alive_at. rewrite cell_at_life.
  destruct (in_grid w h x y); [|done]. cbn [gcell _state].
  apply truthy_b2z.
Qed.

Lemma alive_at_ref i :
  (i < ncells w h)%nat →
  alive_at (life w h b) (col_of w i) (row_of w i) = b i.
Proof.
  intros Hi. destruct (ref_coords w h i Hi) as (Hx & Hy & E).
  rewrite alive_at_life. unfold col_of, row_of.
  rewrite (proj2 (in_grid_spec _ _ _ _)) by lia.
  rewrite !Nat2Z.id. by rewrite <- E.
Qed.

Lemma nbval_alive i d :
  nbval w h b i d
  = Z.b2z (alive_at (life w h b) (col_of w i + Neighbour.x d)
                    (row_of w i + Neighbour.y d)).
Proof.
  unfold nbval, resolve. rewrite alive_at_life. unfold in_grid.
  by destruct (_ && _).
Qed.

Lemma count_at_ref i :
  count_at (life w h b) (col_of w i) (row_of w i) = nbcount w h b i.
Proof.
  unfold nbcount. rewrite !nbval_alive. unfold count_at.
  cbn [Neighbour.x Neighbour.y Neighbours.top Neighbours.top_right
       Neighbours.right Neighbours.bottom_right Neighbours.bottom
       Neighbours.bottom_left Neighbours.left Neighbours.top_left].
  rewrite !Z.add_0_r. reflexivity.
Qed.

Lemma to_list_run :
  to_list (life w h b)
  = (Ok ((λ y : nat, (λ x : nat, b (y * Z.to_nat w + x)%nat)
                       <$> seq 0 (Z.to_nat w)) <$> seq 0 (Z.to_nat h)),
     life w h b).
Proof.
  unfold to_list. rewrite bind_run. unfold gets at 1.
  cbn [_board life grid]. unfold grid_board.
  rewrite (mapM_pure _ (λ row, (λ r, b r) <$> row)).
  - f_equal. f_equal. rewrite <- list_fmap_compose.
    apply list_fmap_ext. intros _ y _. simpl.
    rewrite row_refs_fmap, <- list_fmap_compose. done.
  - intros row Hrow. apply list_elem_of_fmap in Hrow as (y & -> & Hy).
    apply elem_of_seq in Hy.
    apply mapM_pure. intros r Hr. unfold row_refs in Hr.
    apply elem_of_seq in Hr.
    unfold is_alive, life.
    rewrite (at_cell_gets r _ _ _ (grid_lookup w h _ r
               ltac:(unfold ncells; nia))).
    cbn [gcell _state]. by rewrite truthy_b2z.
Qed.
End Reading.

(** ** [__setitem__] on a stable grid *)

Lemma py_index_spec {A} (l : list A) (i : Z) :
  py_index l i
  = if (- Z.of_nat (length l) <=? i) && (i <? Z.of_nat (length l))
    then l !! Z.to_nat (i mod Z.of_nat (length l))
    else None.
Proof.
  unfold py_index.
  destruct (Z.leb_spec 0 i) as [H0|H0];
    destruct (Z.leb_spec (- Z.of_nat (length l)) i) as [H1|H1];
    destruct (Z.ltb_spec i (Z.of_nat (length l))) as [H2|H2];
    simpl; try lia.
  - by rewrite Z.mod_small by lia.
  - apply lookup_ge_None. lia.
  - f_equal. f_equal. apply (Z.mod_unique_pos _ _ (-1)); lia.
  - reflexivity.
Qed.

Lemma life_ext w h b b' :
  (∀ i, (i < ncells w h)%nat → b i = b' i) → life w h b = life w h b'.
Proof.
  intros E. apply grid_ext. intros i Hi. unfold gcell. by rewrite E.
Qed.

Lemma grid_board_length w h : length (grid_board w h) = Z.to_nat h.
Proof. unfold grid_board. by rewrite length_fmap, length_seq. Qed.

Lemma row_refs_length w k : length (row_refs w k) = Z.to_nat w.
Proof. unfold row_refs. by rewrite length_seq. Qed.

Lemma range_guard n i :
  (- Z.of_nat (Z.to_nat n) <=? i) && (i <? Z.of_nat (Z.to_nat n))
  = (- n <=? i) && (i <? n).
Proof.
  destruct (Z.leb_spec (- Z.of_nat (Z.to_nat n)) i),
    (Z.ltb_spec i (Z.of_nat (Z.to_nat n))),
    (Z.leb_spec (- n) i), (Z.ltb_spec i n); simpl; try reflexivity; lia.
Qed.

Lemma getitem_board_run w h y (u : Universe) :
  getitem (grid_board w h) y u
  = if (- h <=? y) && (y <? h)
    then (Ok (row_refs w (Z.to_nat (y mod h))), u)
    else (Raise IndexError, u).
Proof.
  unfold getitem. rewrite py_index_spec, grid_board_length, range_guard.
  destruct ((- h <=? y) && (y <? h)) eqn:E; [|reflexivity].
  apply andb_prop in E as [E1 E2]. apply Z.leb_le in E1. apply Z.ltb_lt in E2.
  rewrite Z2Nat.id by lia.
  pose proof (Z.mod_pos_bound y h ltac:(lia)).
  by rewrite grid_board_lookup by lia.
Qed.

Lemma getitem_row_run w k x (u : Universe) :
  getitem (row_refs w k) x u
  = if (- w <=? x) && (x <? w)
    then (Ok (k * Z.to_nat w + Z.to_nat (x mod w))%nat, u)
    else (Raise IndexError, u).
Proof.
  unfold getitem. rewrite py_index_spec, row_refs_length, range_guard.
  destruct ((- w <=? x) && (x <? w)) eqn:E; [|reflexivity].
  apply andb_prop in E as [E1 E2]. apply Z.leb_le in E1. apply Z.ltb_lt in E2.
  rewrite Z2Nat.id by lia.
  pose proof (Z.mod_pos_bound x w ltac:(lia)).
  by rewrite row_refs_lookup by lia.
Qed.

Lemma setitem_run w h b x y alive :
  __setitem__ (x, y) alive (life w h b)
  = if (- h <=? y) && (y <? h) && ((- w <=? x) && (x <? w))
    then (Ok tt,
          life w h (λ i, if decide (i = Z.to_nat (y mod h) * Z.to_nat w
                                       + Z.to_nat (x mod w))%nat
                         then alive else b i))
    else (Raise IndexError, life w h b).
Proof.
  unfold __setitem__. rewrite bind_run. unfold gets at 1.
  cbn [_board life grid]. fold (life w h b).
  rewrite bind_run, getitem_board_run.
  destruct ((- h <=? y) && (y <? h)) eqn:Ey; [|reflexivity].
  rewrite bind_run, getitem_row_run.
  destruct ((- w <=? x) && (x <? w)) eqn:Ex; [|reflexivity]. simpl.
  apply andb_prop in Ex as [Ex1 Ex2]. apply andb_prop in Ey as [Ey1 Ey2].
  apply Z.leb_le in Ex1, Ey1. apply Z.ltb_lt in Ex2, Ey2.
  pose proof (Z.mod_pos_bound x w ltac:(lia)) as Hxm.
  pose proof (Z.mod_pos_bound y h ltac:(lia)) as Hym.
  set (r := (Z.to_nat (y mod h) * Z.to_nat w + Z.to_nat (x mod w))%nat).
  assert (r < ncells w h)%nat as Hr by (apply ref_lt; lia).
  unfold life at 1.
  erewrite bind_ok.
  2:{ eapply at_cell_run; [by apply grid_lookup|]. reflexivity. }
  erewrite at_cell_run.
  2:{ apply set_cell_lookup. by rewrite grid_length. }
  2:{ reflexivity. }
  rewrite set_cell_twice. f_equal.
  apply grid_set_cell; [done| |].
  - unfold gcell. rewrite decide_True by done. reflexivity.
  - intros j _ Hne. unfold gcell. by rewrite decide_False by done.
Qed.

(** ** Reachable universes are stable grids *)

Lemma reachable_life w h u : reachable w h u → ∃ b, u = life w h b.
Proof.
  induction 1 as [|u [x y] alive _ [b ->]|u _ [b ->]|u _ [b ->]].
  - rewrite construct_run. eauto.
  - rewrite setitem_run. destruct (_ && _); simpl; eauto.
  - rewrite tick_run. simpl. eauto.
  - rewrite to_list_run. simpl. eauto.
Qed.

Lemma life_stable w h b : stable (life w h b).
Proof.
  intros r c Hc. simpl in Hc.
  apply list_lookup_fmap_Some in Hc as (i & -> & _). reflexivity.
Qed.

Lemma coords_ref w h x y :
  in_grid w h x y = true →
  (Z.to_nat y * Z.to_nat w + Z.to_nat x < ncells w h)%nat
  ∧ col_of w (Z.to_nat y * Z.to_nat w + Z.to_nat x) = x
  ∧ row_of w (Z.to_nat y * Z.to_nat w + Z.to_nat x) = y.
Proof.
  intros E. apply in_grid_spec in E. split; [apply ref_lt; lia|].
  rewrite col_of_ref, row_of_ref by lia. lia.
Qed.

Lemma tick_rule w h b x y :
  in_grid w h x y = true →
  alive_at (life w h (next_alive w h b)) x y = conway (life w h b) x y.
Proof.
  intros E. destruct (coords_ref w h x y E) as (Hi & Hx & Hy).
  unfold conway. rewrite !alive_at_life, E.
  pose proof (count_at_ref w h b (Z.to_nat y * Z.to_nat w + Z.to_nat x)) as Hc.
  rewrite Hx, Hy in Hc. rewrite Hc. reflexivity.
Qed.

Lemma conway_spec u x y :
  conway u x y = true
  ↔ (alive_at u x y = true ∧ (count_at u x y = 2 ∨ count_at u x y = 3))
    ∨ (alive_at u x y = false ∧ count_at u x y = 3).
Proof.
  unfold conway. destruct (alive_at u x y).
  - rewrite orb_true_iff, !Z.eqb_eq. intuition congruence.
  - rewrite Z.eqb_eq. intuition congruence.
Qed.

Lemma reachable_seed w h l u :
  reachable w h u → reachable w h (snd (seed l u)).
Proof.
  revert u. induction l as [|key l IH]; intros u Hu; [exact Hu|].
  unfold seed. rewrite forM__cons, bind_run.
  pose proof (reach_setitem w h u key true Hu) as Hu'.
  destruct (__setitem__ key true u) as [[[]|e] u']; [apply IH|]; exact Hu'.
Qed.

Lemma reachable_blinker_universe : reachable 5 5 blinker_universe.
Proof. apply reachable_seed, reach_construct. Qed.

Lemma reachable_corner_universe : reachable 3 3 corner_universe.
Proof. apply reach_setitem, reach_construct. Qed.

(** Writing the cells one after the other, in flat order, builds any
    generation on a fresh universe. *)
Lemma seeded_prefix w h (b : nat → bool) (k : nat) :
  (k ≤ ncells w h)%nat →
  reachable w h (life w h (λ i, if (i <? k)%nat then b i else false)).
Proof.
  induction k as [|k IH]; intros Hk.
  { pose proof (reach_construct w h) as Hc.
    rewrite construct_run in Hc. exact Hc. }
  pose proof (reach_setitem w h _ (col_of w k, row_of w k) (b k)
                (IH ltac:(lia))) as Hs.
  destruct (ref_coords w h k ltac:(lia)) as (Hx & Hy & Ek).
  rewrite setitem_run in Hs. unfold col_of, row_of in Hs.
  rewrite (proj2 (Z.leb_le _ _)), (proj2 (Z.ltb_lt _ _)) in Hs by lia.
  rewrite (proj2 (Z.leb_le _ _)), (proj2 (Z.ltb_lt _ _)) in Hs by lia.
  cbn [andb snd] in Hs.
  rewrite !Z.mod_small, !Nat2Z.id, <- Ek in Hs by lia.
  erewrite life_ext; [exact Hs|].
  intros i _. cbn beta. destruct (decide (i = k)) as [->|Hne].
  - by rewrite (proj2 (Nat.ltb_lt k (S k))) by lia.
  - destruct (Nat.ltb_spec i k), (Nat.ltb_spec i (S k)); try lia; reflexivity.
Qed.

Lemma every_generation_reachable w h (g : Z → Z → bool) :
  ∃ u, reachable w h u
       ∧ ∀ x y, 0 ≤ x < w → 0 ≤ y < h → alive_at u x y = g x y.
Proof.
  exists (life w h (λ i, if (i <? ncells w h)%nat
                         then g (col_of w i) (row_of w i) else false)).
  split; [by apply seeded_prefix|].
  intros x y Hx Hy.
  assert (in_grid w h x y = true) as E by (apply in_grid_spec; lia).
  destruct (coords_ref w h x y E) as (Hi & Ex & Ey).
  rewrite alive_at_life, E, Ex, Ey.
  by rewrite (proj2 (Nat.ltb_lt _ _)) by done.
Qed.

(** * The claims *)

(** C1.  For every universe and every cell in it (each cell of the flat list
    sits at one position of the grid), after one [tick] the cell
    is alive if and only if it was alive and its alive-neighbour count [n]
    is 2 or 3, or it was dead and [n] is 3.  [n] is what [get_alive_count]
    returns on the generation before the tick, and it equals the number of
    live cells among the eight surrounding positions of that generation,
    positions outside the grid counting for 0.  [tick] returns normally.
    The universes this ranges over hold every generation: whatever states
    [g] gives to the positions of the grid, the constructor and
    [__setitem__] lead to a universe whose cells are alive exactly where
    [g] says. *)
Theorem tick_conway w h u :
  reachable w h u →
  (∃ changed u',
    tick u = (Ok changed, u')
    ∧ (∀ r, r ∈ _cells u →
         ∃ x y, 0 ≤ x < w ∧ 0 ≤ y < h ∧ ref_at u x y = Some r)
    ∧ ∀ x y, 0 ≤ x < w → 0 ≤ y < h →
        ∃ c n,
          cell_at u x y = Some c
          ∧ fst (Neighbours.get_alive_count (neighbours c) u) = Ok (Some n)
          ∧ n = count_at u x y
          ∧ (alive_at u' x y = true
             ↔ (alive_at u x y = true ∧ (n = 2 ∨ n = 3))
               ∨ (alive_at u x y = false ∧ n = 3)))
  ∧ ∀ g : Z → Z → bool,
      ∃ u0, reachable w h u0
            ∧ ∀ x y, 0 ≤ x < w → 0 ≤ y < h → alive_at u0 x y = g x y.
Proof.
  intros Hu. split; [|apply every_generation_reachable].
  destruct (reachable_life w h u Hu) as [b ->].
  exists (filter (touched w h b) (seq 0 (ncells w h))),
         (life w h (next_alive w h b)).
  split; [apply tick_run|]. split.
  { intros r Hr. apply elem_of_seq in Hr.
    destruct (ref_coords w h r ltac:(lia)) as (Hx & Hy & Er).
    exists (col_of w r), (row_of w r). unfold col_of, row_of.
    split; [lia|]. split; [lia|].
    rewrite ref_at_life, in_grid_true by lia.
    by rewrite !Nat2Z.id, <- Er. }
  intros x y Hx Hy.
  assert (in_grid w h x y = true) as E by (apply in_grid_spec; lia).
  destruct (coords_ref w h x y E) as (Hi & Ex & Ey).
  eexists _, (count_at (life w h b) x y).
  split; [by rewrite cell_at_life, E|].
  cbn [neighbours gcell]. unfold life at 1.
  rewrite get_alive_count_run. fold (life w h b).
  rewrite <- count_at_ref, Ex, Ey.
  split; [reflexivity|]. split; [reflexivity|].
  rewrite tick_rule by done. apply conway_spec.
Qed.

(** C1 on the 5 by 5 blinker, whose row of three live cells turns into a
    column: the cell at [(1, 2)] is alive with one live neighbour and dies,
    the cell at [(2, 1)] is dead with three and is born, the centre has two
    and survives, and the corner [(0, 0)] has none and stays dead. *)
Lemma tick_conway_witness :
  reachable 5 5 blinker_universe
  ∧ (∃ changed u',
      tick blinker_universe = (Ok changed, u')
      ∧ alive_at blinker_universe 1 2 = true ∧ alive_at u' 1 2 = false
      ∧ alive_at blinker_universe 2 1 = false ∧ alive_at u' 2 1 = true
      ∧ alive_at blinker_universe 2 2 = true ∧ alive_at u' 2 2 = true
      ∧ alive_at blinker_universe 0 0 = false ∧ alive_at u' 0 0 = false
      ∧ (∀ r, r ∈ _cells blinker_universe →
           ∃ x y, 0 ≤ x < 5 ∧ 0 ≤ y < 5 ∧ ref_at blinker_universe x y = Some r)
      ∧ ∀ x y, 0 ≤ x < 5 → 0 ≤ y < 5 →
          ∃ c n,
            cell_at blinker_universe x y = Some c
            ∧ fst (Neighbours.get_alive_count (neighbours c) blinker_universe)
              = Ok (Some n)
            ∧ n = count_at blinker_universe x y
            ∧ (alive_at u' x y = true
               ↔ (alive_at blinker_universe x y = true ∧ (n = 2 ∨ n = 3))
                 ∨ (alive_at blinker_universe x y = false ∧ n = 3)))
  ∧ ∀ g : Z → Z → bool,
      ∃ u0, reachable 5 5 u0
            ∧ ∀ x y, 0 ≤ x < 5 → 0 ≤ y < 5 → alive_at u0 x y = g x y.
Proof.
  split; [exact reachable_blinker_universe|].
  destruct (tick_conway 5 5 blinker_universe reachable_blinker_universe)
    as [(changed & u' & Ht & Hcells & Hrule) Hany].
  split; [|exact Hany].
  exists changed, u'. split; [exact Ht|].
  assert (alive_at blinker_universe 1 2 = true) as A12
    by (vm_compute; reflexivity).
  assert (alive_at blinker_universe 2 1 = false) as A21
    by (vm_compute; reflexivity).
  assert (alive_at blinker_universe 2 2 = true) as A22
    by (vm_compute; reflexivity).
  assert (alive_at blinker_universe 0 0 = false) as A00
    by (vm_compute; reflexivity).
  assert (count_at blinker_universe 1 2 = 1) as N12
    by (vm_compute; reflexivity).
  assert (count_at blinker_universe 2 1 = 3) as N21
    by (vm_compute; reflexivity).
  assert (count_at blinker_universe 2 2 = 2) as N22
    by (vm_compute; reflexivity).
  assert (count_at blinker_universe 0 0 = 0) as N00
    by (vm_compute; reflexivity).
  split; [exact A12|]. split.
  { destruct (Hrule 1 2 ltac:(lia) ltac:(lia)) as (c & n & _ & _ & -> & Hiff).
    destruct (alive_at u' 1 2); [|reflexivity].
    rewrite N12, A12 in Hiff.
    destruct (proj1 Hiff eq_refl) as [[_ [E|E]]|[E _]]; discriminate E. }
  split; [exact A21|]. split.
  { destruct (Hrule 2 1 ltac:(lia) ltac:(lia)) as (c & n & _ & _ & -> & Hiff).
    apply Hiff. right. split; [exact A21|exact N21]. }
  split; [exact A22|]. split.
  { destruct (Hrule 2 2 ltac:(lia) ltac:(lia)) as (c & n & _ & _ & -> & Hiff).
    apply Hiff. left. split; [exact A22|left; exact N22]. }
  split; [exact A00|]. split.
  { destruct (Hrule 0 0 ltac:(lia) ltac:(lia)) as (c & n & _ & _ & -> & Hiff).
    destruct (alive_at u' 0 0); [|reflexivity].
    rewrite N00, A00 in Hiff.
    destruct (proj1 Hiff eq_refl) as [[E _]|[_ E]]; discriminate E. }
  split; [exact Hcells|exact Hrule].
Defined.

(** C9.  No public operation leaves a staged value pending: every universe
    a caller can reach is stable, [tick] returns normally on it, and
    [__setitem__] either returns normally or raises [IndexError], never the
    staging assertion; the universes they leave are stable again. *)
Theorem stable_invariant w h u :
  reachable w h u →
  stable u
  ∧ stable (snd (construct w h))
  ∧ (∃ changed, fst (tick u) = Ok changed)
  ∧ stable (snd (tick u))
  ∧ ∀ key alive,
      (fst (__setitem__ key alive u) = Ok tt
       ∨ fst (__setitem__ key alive u) = Raise IndexError)
      ∧ stable (snd (__setitem__ key alive u)).
Proof.
  intros Hu.
  assert (∀ u', reachable w h u' → stable u') as Hst.
  { intros u' Hu'. destruct (reachable_life w h u' Hu') as [b ->].
    apply life_stable. }
  split; [by apply Hst|].
  split; [apply Hst, reach_construct|].
  split.
  { destruct (reachable_life w h u Hu) as [b ->]. rewrite tick_run. eauto. }
  split; [by apply Hst, reach_tick|].
  intros key alive. split; [|by apply Hst, reach_setitem].
  destruct (reachable_life w h u Hu) as [b ->]. destruct key as [x y].
  rewrite setitem_run. destruct (_ && _); simpl; auto.
Qed.

(** C9 on the 5 by 5 blinker. *)
Lemma stable_invariant_witness :
  reachable 5 5 blinker_universe
  ∧ stable blinker_universe
  ∧ stable (snd (construct 5 5))
  ∧ (∃ changed, fst (tick blinker_universe) = Ok changed)
  ∧ stable (snd (tick blinker_universe))
  ∧ ∀ key alive,
      (fst (__setitem__ key alive blinker_universe) = Ok tt
       ∨ fst (__setitem__ key alive blinker_universe) = Raise IndexError)
      ∧ stable (snd (__setitem__ key alive blinker_universe)).
Proof.
  split; [exact reachable_blinker_universe|].
  exact (stable_invariant 5 5 blinker_universe reachable_blinker_universe).
Defined.

(** C6.  [to_list] returns the matrix of the committed cell states, [height]
    rows of [width] booleans, and mutates nothing: the universe after the
    call is the universe before it, and a second call returns the same
    matrix. *)
Theorem to_list_pure w h u :
  reachable w h u →
  ∃ m,
    to_list u = (Ok m, u)
    ∧ length m = Z.to_nat h
    ∧ (∀ row, row ∈ m → length row = Z.to_nat w)
    ∧ (∀ x y, 0 ≤ x < w → 0 ≤ y < h →
         m !! Z.to_nat y ≫= (λ row, row !! Z.to_nat x) = Some (alive_at u x y))
    ∧ to_list (snd (to_list u)) = (Ok m, u).
Proof.
  intros Hu. destruct (reachable_life w h u Hu) as [b ->].
  eexists. split; [apply to_list_run|].
  split; [by rewrite length_fmap, length_seq|].
  split.
  { intros row Hrow. apply list_elem_of_fmap in Hrow as (y & -> & _).
    by rewrite length_fmap, length_seq. }
  split.
  { intros x y Hx Hy. rewrite list_lookup_fmap, lookup_seq_lt by lia. simpl.
    rewrite list_lookup_fmap, lookup_seq_lt by lia. simpl.
    rewrite alive_at_life.
    by rewrite (proj2 (in_grid_spec w h x y)) by lia. }
  rewrite to_list_run. simpl. apply to_list_run.
Qed.

(** C6 on the 5 by 5 blinker. *)
Lemma to_list_pure_witness :
  reachable 5 5 blinker_universe ∧
  ∃ m,
    to_list blinker_universe = (Ok m, blinker_universe)
    ∧ length m = Z.to_nat 5
    ∧ (∀ row, row ∈ m → length row = Z.to_nat 5)
    ∧ (∀ x y, 0 ≤ x < 5 → 0 ≤ y < 5 →
         m !! Z.to_nat y ≫= (λ row, row !! Z.to_nat x)
         = Some (alive_at blinker_universe x y))
    ∧ to_list (snd (to_list blinker_universe)) = (Ok m, blinker_universe).
Proof.
  split; [exact reachable_blinker_universe|].
  exact (to_list_pure 5 5 blinker_universe reachable_blinker_universe).
Defined.

(** C5.  A first [stage] call (the [is_alive] setter on a cell with nothing
    pending) records the pending next state and leaves the committed state
    unchanged; any second call before a [commit] fails with the staging
    assertion ([AssertionError], the spec's StagingConflict) and leaves the
    cell, committed state and staged value alike, as it was. *)
Theorem stage_once (c : Cell) (alive : bool) :
  _state_dirty c = None →
  ∃ c1,
    set_is_alive alive c = (Ok tt, c1)
    ∧ _state_dirty c1 = Some (Z.b2z alive)
    ∧ _state c1 = _state c
    ∧ ∀ alive', set_is_alive alive' c1 = (Raise AssertionError, c1).
Proof.
  intros Hd. exists (with_state_dirty (Some (Z.b2z alive)) c).
  unfold set_is_alive. rewrite !bind_run. unfold gets. rewrite Hd.
  repeat split.
Qed.

(** C5 on a fresh dead cell, staged alive. *)
Lemma stage_once_witness :
  _state_dirty (Cell__init__ false 0 0) = None
  ∧ ∃ c1,
      set_is_alive true (Cell__init__ false 0 0) = (Ok tt, c1)
      ∧ _state_dirty c1 = Some (Z.b2z true)
      ∧ _state c1 = _state (Cell__init__ false 0 0)
      ∧ ∀ alive', set_is_alive alive' c1 = (Raise AssertionError, c1).
Proof.
  split; [reflexivity|].
  apply (stage_once (Cell__init__ false 0 0) true). reflexivity.
Defined.

(** C4, as the code has it.  [commit] never fails: it has no check for a
    pending stage.  It leaves the pending slot clear, and when a staged value
    is pending the committed state becomes that value; position and
    neighbours are untouched. *)
Theorem commit_applies (c : Cell) :
  ∃ c',
    commit c = (Ok tt, c')
    ∧ _state_dirty c' = None
    ∧ (∀ v, _state_dirty c = Some v → _state c' = Some v)
    ∧ pos_x c' = pos_x c ∧ pos_y c' = pos_y c ∧ neighbours c' = neighbours c.
Proof.
  eexists. split; [reflexivity|]. simpl. repeat split. by intros v ->.
Qed.

(** C4 fails as stated: on a live cell with nothing pending [commit] returns
    normally, and the committed state does not stay what it was. *)
Lemma commit_without_stage_succeeds :
  _state_dirty (Cell__init__ true 0 0) = None
  ∧ fst (commit (Cell__init__ true 0 0)) = Ok tt
  ∧ _state (snd (commit (Cell__init__ true 0 0))) ≠ _state (Cell__init__ true 0 0).
Proof. repeat split. discriminate. Qed.

(** C3, as the code has it.  The constructor never fails.  It creates
    [width * height] cells when both are at least 1 and no cell when one of
    them is below 1; the board has a reference at exactly the positions of
    the grid, and every cell is dead with nothing pending. *)
Theorem construct_total w h :
  ∃ u,
    construct w h = (Ok tt, u)
    ∧ length (_cells u) = (Z.to_nat w * Z.to_nat h)%nat
    ∧ (1 ≤ w ∧ 1 ≤ h → Z.of_nat (length (_cells u)) = w * h)
    ∧ (w < 1 ∨ h < 1 → _cells u = [])
    ∧ (∀ x y, is_Some (cell_at u x y) ↔ 0 ≤ x < w ∧ 0 ≤ y < h)
    ∧ (∀ r, r ∈ _cells u →
         ∃ c, store u !! r = Some c ∧ is_alive c = (Ok false, c)
              ∧ _state_dirty c = None)
    ∧ ∀ x y, alive_at u x y = false.
Proof.
  exists (life w h (λ _, false)). split; [apply construct_run|].
  cbn [_cells life grid]. rewrite length_seq. unfold ncells.
  split; [reflexivity|]. split; [lia|]. split.
  { intros Hwh. by replace (Z.to_nat w * Z.to_nat h)%nat with 0%nat by lia. }
  split.
  { intros x y. rewrite cell_at_life, <- in_grid_spec.
    destruct (in_grid w h x y); split; intros Hs; done. }
  split.
  { intros r Hr. apply elem_of_seq in Hr. eexists.
    split; [apply grid_lookup; unfold ncells; lia|]. by split. }
  intros x y. rewrite alive_at_life. by destruct (in_grid w h x y).
Qed.

(** C3 fails as stated: [Universe(0, 5)] and [Universe(5, 0)] return
    normally. *)
Lemma construct_zero_succeeds :
  fst (construct 0 5) = Ok tt ∧ fst (construct 5 0) = Ok tt.
Proof. split; vm_compute; reflexivity. Qed.

(** C2.  On the 2 by 2 block in the middle of a 4 by 4 universe [tick]
    leaves every cell as it was and still returns the four block cells,
    where the claim has it return no cell. *)
Theorem tick_block_returns_survivors :
  tick block_universe = (Ok [5; 6; 9; 10]%nat, block_universe)
  ∧ ref_at block_universe 1 1 = Some 5%nat
  ∧ ref_at block_universe 2 1 = Some 6%nat
  ∧ ref_at block_universe 1 2 = Some 9%nat
  ∧ ref_at block_universe 2 2 = Some 10%nat.
Proof.
  split; [vm_compute; reflexivity|].
  split; [vm_compute; reflexivity|].
  split; [vm_compute; reflexivity|].
  split; vm_compute; reflexivity.
Qed.

Lemma ref_inj w (x y x' y' : nat) :
  (x < Z.to_nat w)%nat → (x' < Z.to_nat w)%nat →
  (y * Z.to_nat w + x = y' * Z.to_nat w + x')%nat → x = x' ∧ y = y'.
Proof.
  intros Hx Hx' E.
  pose proof (col_of_ref w x y Hx) as Hc. pose proof (row_of_ref w x y Hx) as Hr.
  rewrite E in Hc, Hr. rewrite col_of_ref in Hc by done.
  rewrite row_of_ref in Hr by done. lia.
Qed.

(** C10.  For every universe and every coordinate with
    [-width ≤ x < width] and [-height ≤ y < height], so in particular
    whenever [x] or [y] is negative and each of the two is an index Python
    accepts, [__setitem__] does not fail: it writes the cell at
    [(x mod width, y mod height)] and no other, and leaves nothing
    pending.  A negative coordinate wraps to the opposite edge of the grid
    instead of being rejected. *)
Theorem setitem_wraps w h u x y alive :
  reachable w h u → - w ≤ x < w → - h ≤ y < h →
  ∃ u',
    __setitem__ (x, y) alive u = (Ok tt, u')
    ∧ alive_at u' (x mod w) (y mod h) = alive
    ∧ (∀ x' y', (x', y') ≠ (x mod w, y mod h) →
         alive_at u' x' y' = alive_at u x' y')
    ∧ stable u'.
Proof.
  intros Hu Hx Hy. destruct (reachable_life w h u Hu) as [b ->].
  eexists. split.
  { rewrite setitem_run.
    rewrite (proj2 (Z.leb_le (- h) y)), (proj2 (Z.ltb_lt y h)) by lia.
    rewrite (proj2 (Z.leb_le (- w) x)), (proj2 (Z.ltb_lt x w)) by lia.
    reflexivity. }
  pose proof (Z.mod_pos_bound x w ltac:(lia)) as Hxm.
  pose proof (Z.mod_pos_bound y h ltac:(lia)) as Hym.
  split.
  { rewrite alive_at_life.
    rewrite (proj2 (in_grid_spec w h _ _)) by lia.
    by rewrite decide_True. }
  split; [|apply life_stable].
  intros x' y' Hne. rewrite !alive_at_life.
  destruct (in_grid w h x' y') eqn:E; [|reflexivity].
  apply in_grid_spec in E.
  rewrite decide_False; [reflexivity|]. intros Heq.
  apply ref_inj in Heq as [Ex Ey]; [|lia..].
  apply Hne. f_equal; lia.
Qed.

(** C10 on the 3 by 3 universe: [(-1, -3)] writes the cell at [(2, 0)]. *)
Lemma setitem_wraps_witness :
  reachable 3 3 corner_universe ∧ - 3 ≤ -1 < 3 ∧ - 3 ≤ -3 < 3
  ∧ ∃ u',
      __setitem__ (-1, -3) true corner_universe = (Ok tt, u')
      ∧ alive_at u' (-1 mod 3) (-3 mod 3) = true
      ∧ (∀ x' y', (x', y') ≠ (-1 mod 3, -3 mod 3) →
           alive_at u' x' y' = alive_at corner_universe x' y')
      ∧ stable u'.
Proof.
  split; [exact reachable_corner_universe|].
  split; [lia|]. split; [lia|].
  apply (setitem_wraps 3 3 corner_universe (-1) (-3) true
           reachable_corner_universe); lia.
Defined.

Lemma get_wiring w h x y d :
  d ∈ Neighbours.all →
  Neighbour.__get__ d (wiring w h x y)
  = match resolve w h x y d with Some r => CellRef r | None => NULL end.
Proof. intros Hd. unfold Neighbour.__get__. by rewrite wiring_lookup. Qed.





(** ** Blinkers *)

Lemma bl_off_far v dx dy :
  dx < -1 ∨ 1 < dx ∨ dy < -1 ∨ 1 < dy → bl_off v dx dy = false.
Proof.
  intros Hfar. unfold bl_off.
  destruct v; destruct (Z.eqb_spec dx 0), (Z.eqb_spec dy 0),
    (Z.leb_spec (-1) dx), (Z.leb_spec dx 1),
    (Z.leb_spec (-1) dy), (Z.leb_spec dy 1); simpl; try reflexivity; lia.
Qed.

Lemma small_cases d :
  -2 ≤ d ≤ 2 → d = -2 ∨ d = -1 ∨ d = 0 ∨ d = 1 ∨ d = 2.
Proof. lia. Qed.

Ltac near_or_far v dx dy :=
  destruct (decide (-2 ≤ dx ≤ 2 ∧ -2 ≤ dy ≤ 2)) as [[Hdx Hdy]|Hfar];
  [apply small_cases in Hdx, Hdy;
   destruct Hdx as [->|[->|[->|[->| ->]]]];
   destruct Hdy as [->|[->|[->|[->| ->]]]];
   destruct v; vm_compute; reflexivity
  |].

(** Conway's rule turns a blinker by a quarter. *)
Lemma off_rule v dx dy :
  (if bl_off v dx dy
   then (off_count v dx dy =? 2) || (off_count v dx dy =? 3)
   else off_count v dx dy =? 3)
  = bl_off (negb v) dx dy.
Proof.
  near_or_far v dx dy.
  unfold off_count. rewrite !bl_off_far by lia. reflexivity.
Qed.

(** The cells [tick] stages are those of the plus shape, in both phases. *)
Lemma off_touched v dx dy :
  bl_off v dx dy || (off_count v dx dy =? 3)
  = bl_off (negb v) dx dy || (off_count (negb v) dx dy =? 3).
Proof.
  near_or_far v dx dy.
  unfold off_count. rewrite !bl_off_far by lia. reflexivity.
Qed.

Lemma filter_ext_in (P Q : nat → bool) (l : list nat) :
  (∀ i, i ∈ l → P i = Q i) → filter P l = filter Q l.
Proof.
  induction l as [|a l IH]; intros E; [reflexivity|].
  rewrite !filter_cons, (E a) by left.
  rewrite IH; [reflexivity|]. intros i Hi. apply E. by right.
Qed.

Section Blinker.
Variables (w h : Z) (b : nat → bool) (v : bool) (cx cy : Z).
Hypothesis Hcx : 1 ≤ cx ≤ w - 2.
Hypothesis Hcy : 1 ≤ cy ≤ h - 2.
Hypothesis Hb : ∀ x y, alive_at (life w h b) x y = blinker v cx cy x y.

Lemma blinker_count x y :
count_at (life w h b) x y = off_count v (x - cx) (y - cy).
Proof.
unfold count_at, off_count. rewrite !Hb. unfold blinker.
replace (x + 1 - cx) with (x - cx + 1) by lia.
replace (x - 1 - cx) with (x - cx - 1) by lia.
replace (y + 1 - cy) with (y - cy + 1) by lia.
replace (y - 1 - cy) with (y - cy - 1) by lia.
reflexivity.
Qed.

Lemma blinker_step x y :
alive_at (life w h (next_alive w h b)) x y = blinker (negb v) cx cy x y.
Proof.
destruct (in_grid w h x y) eqn:E.
- rewrite tick_rule by done. unfold conway.
  rewrite Hb, blinker_count. apply off_rule.
- rewrite alive_at_life, E. symmetry. apply bl_off_far.
  apply not_true_iff_false in E. rewrite in_grid_spec in E. lia.
Qed.

Lemma blinker_touched i :
(i < ncells w h)%nat →
touched w h b i
= bl_off v (col_of w i - cx) (row_of w i - cy)
  || (off_count v (col_of w i - cx) (row_of w i - cy) =? 3).
Proof.
intros Hi. unfold touched.
rewrite <- (alive_at_ref w h b i Hi), <- (count_at_ref w h b i).
by rewrite Hb, blinker_count.
Qed.
End Blinker.

Lemma blinker_universe_alive x y :
  alive_at blinker_universe x y = blinker false 2 2 x y.
Proof.
  assert (blinker_universe
          = life 5 5 (λ i, Nat.leb 11 i && Nat.leb i 13)) as ->
    by (vm_compute; reflexivity).
  rewrite alive_at_life. destruct (in_grid 5 5 x y) eqn:E.
  - apply in_grid_spec in E as [Hx Hy].
    assert (x = 0 ∨ x = 1 ∨ x = 2 ∨ x = 3 ∨ x = 4) as Hxs by lia.
    assert (y = 0 ∨ y = 1 ∨ y = 2 ∨ y = 3 ∨ y = 4) as Hys by lia.
    destruct Hxs as [->|[->|[->|[->| ->]]]];
      destruct Hys as [->|[->|[->|[->| ->]]]]; reflexivity.
  - symmetry. apply bl_off_far.
    apply not_true_iff_false in E. rewrite in_grid_spec in E. lia.
Qed.

(** C7, as the code has it.  For every universe holding a blinker, in a row
    or in a column, with the cells above and below (or left and right of)
    its centre on the board, one [tick] turns it by a quarter and a second
    [tick] returns the universe to exactly its state before the first; the
    second [tick] returns the same cells in the same flat order as the
    first. *)
Theorem blinker_period_2 w h u (vertical : bool) cx cy :
  reachable w h u → 1 ≤ cx ≤ w - 2 → 1 ≤ cy ≤ h - 2 →
  (∀ x y, alive_at u x y = blinker vertical cx cy x y) →
  ∃ changed u1,
    tick u = (Ok changed, u1)
    ∧ (∀ x y, alive_at u1 x y = blinker (negb vertical) cx cy x y)
    ∧ tick u1 = (Ok changed, u).
Proof.
  intros Hu Hcx Hcy Hb. destruct (reachable_life w h u Hu) as [b ->].
  pose proof (blinker_step w h b vertical cx cy Hcx Hcy Hb) as Hb1.
  pose proof (blinker_step w h _ (negb vertical) cx cy Hcx Hcy Hb1) as Hb2.
  rewrite negb_involutive in Hb2.
  eexists _, _. split; [apply tick_run|]. split; [exact Hb1|].
  rewrite tick_run. f_equal; [f_equal|].
  - apply filter_ext_in. intros i Hi. apply elem_of_seq in Hi.
    rewrite (blinker_touched w h _ (negb vertical) cx cy Hb1) by lia.
    rewrite (blinker_touched w h b vertical cx cy Hb) by lia.
    symmetry. apply off_touched.
  - apply life_ext. intros i Hi.
    rewrite <- (alive_at_ref w h b i Hi), <- (alive_at_ref w h _ i Hi).
    by rewrite Hb, Hb2.
Qed.

(** C7 on the 5 by 5 blinker. *)
Lemma blinker_period_2_witness :
  reachable 5 5 blinker_universe ∧ 1 ≤ 2 ≤ 5 - 2
  ∧ (∀ x y, alive_at blinker_universe x y = blinker false 2 2 x y)
  ∧ ∃ changed u1,
      tick blinker_universe = (Ok changed, u1)
      ∧ (∀ x y, alive_at u1 x y = blinker (negb false) 2 2 x y)
      ∧ tick u1 = (Ok changed, blinker_universe).
Proof.
  split; [exact reachable_blinker_universe|]. split; [lia|].
  split; [exact blinker_universe_alive|].
  apply (blinker_period_2 5 5 blinker_universe false 2 2
           reachable_blinker_universe); [lia|lia|exact blinker_universe_alive].
Defined.

(** C7 fails as stated: on the 5 by 5 blinker both ticks return the cells
    7, 11, 12, 13, 17 in that order, which is not the reverse order. *)
Lemma blinker_second_tick_not_reversed :
  fst (tick blinker_universe) = Ok [7; 11; 12; 13; 17]%nat
  ∧ fst (tick (snd (tick blinker_universe))) = Ok [7; 11; 12; 13; 17]%nat
  ∧ [7; 11; 12; 13; 17]%nat ≠ rev [7; 11; 12; 13; 17]%nat.
Proof.
  split; [vm_compute; reflexivity|].
  split; [vm_compute; reflexivity|]. discriminate.
Qed.

(** * Further properties of the engine *)

Lemma slot_spec w h b x y d :
  d ∈ Neighbours.all →
  Neighbour.__get__ d (wiring w h x y)
  = match ref_at (life w h b) (x + Neighbour.x d) (y + Neighbour.y d) with
    | Some r => CellRef r
    | None => NULL
    end.
Proof.
  intros Hd. rewrite get_wiring by done. rewrite ref_at_life.
  unfold resolve, in_grid. by destruct (_ && _).
Qed.

Lemma cell_at_neighbours w h b x y c :
  cell_at (life w h b) x y = Some c →
  0 ≤ x < w ∧ 0 ≤ y < h ∧ neighbours c = wiring w h x y
  ∧ pos_x c = x ∧ pos_y c = y
  ∧ ref_at (life w h b) x y = Some (Z.to_nat y * Z.to_nat w + Z.to_nat x)%nat.
Proof.
  rewrite cell_at_life, ref_at_life.
  destruct (in_grid w h x y) eqn:E; [|discriminate].
  intros [= <-]. destruct (coords_ref w h x y E) as (Hi & Ex & Ey).
  apply in_grid_spec in E. cbn [neighbours pos_x pos_y gcell].
  rewrite Ex, Ey. tauto.
Qed.

(** X1.  In every universe, each of the eight neighbour slots of the cell at
    [(x, y)] reads as the cell the board holds at the slot's offset from
    [(x, y)], and as [Cell.NULL] when that position is off the board: there
    is no wrap-around. *)
Theorem neighbour_slots w h u x y d :
  reachable w h u → 0 ≤ x < w → 0 ≤ y < h → d ∈ Neighbours.all →
  ∃ c,
    cell_at u x y = Some c
    ∧ Neighbour.__get__ d (neighbours c)
      = match ref_at u (x + Neighbour.x d) (y + Neighbour.y d) with
        | Some r => CellRef r
        | None => NULL
        end.
Proof.
  intros Hu Hx Hy Hd. destruct (reachable_life w h u Hu) as [b ->].
  destruct (cell_at (life w h b) x y) as [c|] eqn:Ec.
  - exists c. split; [done|].
    apply cell_at_neighbours in Ec as (_ & _ & -> & _). by apply slot_spec.
  - rewrite cell_at_life, in_grid_true in Ec by lia. discriminate.
Qed.

(** X1 on the 3 by 3 universe: the [top] slot of the centre and of a cell
    of the first row. *)
Lemma neighbour_slots_witness :
  (∃ c, cell_at corner_universe 1 1 = Some c
        ∧ Neighbour.__get__ Neighbours.top (neighbours c) = CellRef 1%nat)
  ∧ (∃ c, cell_at corner_universe 1 0 = Some c
          ∧ Neighbour.__get__ Neighbours.top (neighbours c) = NULL).
Proof.
  split.
  - destruct (neighbour_slots 3 3 corner_universe 1 1 Neighbours.top
                reachable_corner_universe ltac:(lia) ltac:(lia) ltac:(in_all))
      as (c & Hc & Hs).
    exists c. split; [exact Hc|]. rewrite Hs. vm_compute. reflexivity.
  - destruct (neighbour_slots 3 3 corner_universe 1 0 Neighbours.top
                reachable_corner_universe ltac:(lia) ltac:(lia) ltac:(in_all))
      as (c & Hc & Hs).
    exists c. split; [exact Hc|]. rewrite Hs. vm_compute. reflexivity.
Defined.

Lemma opposite_slot d :
  d ∈ Neighbours.all →
  ∃ d', d' ∈ Neighbours.all
        ∧ Neighbour.x d' = - Neighbour.x d ∧ Neighbour.y d' = - Neighbour.y d.
Proof.
  unfold Neighbours.all. intros Hd.
  repeat (apply elem_of_cons in Hd as [->|Hd]); [..|by apply elem_of_nil in Hd].
  - exists Neighbours.bottom. split; [in_all|done].
  - exists Neighbours.bottom_left. split; [in_all|done].
  - exists Neighbours.left. split; [in_all|done].
  - exists Neighbours.top_left. split; [in_all|done].
  - exists Neighbours.top. split; [in_all|done].
  - exists Neighbours.top_right. split; [in_all|done].
  - exists Neighbours.right. split; [in_all|done].
  - exists Neighbours.bottom_right. split; [in_all|done].
Qed.

(** X2.  The neighbour links are symmetric: when a slot of cell [A] names
    cell [B], the slot of [B] with the opposite offset names [A]. *)
Theorem neighbours_symmetric w h u x y d cA rA rB :
  reachable w h u → d ∈ Neighbours.all →
  cell_at u x y = Some cA → ref_at u x y = Some rA →
  Neighbour.__get__ d (neighbours cA) = CellRef rB →
  ∃ cB d',
    store u !! rB = Some cB
    ∧ d' ∈ Neighbours.all
    ∧ Neighbour.x d' = - Neighbour.x d ∧ Neighbour.y d' = - Neighbour.y d
    ∧ Neighbour.__get__ d' (neighbours cB) = CellRef rA.
Proof.
  intros Hu Hd HcA HrA Hs. destruct (reachable_life w h u Hu) as [b ->].
  apply cell_at_neighbours in HcA as (Hx & Hy & Hn & _ & _ & _).
  rewrite Hn, (slot_spec w h b), ref_at_life in Hs by done.
  destruct (in_grid w h (x + Neighbour.x d) (y + Neighbour.y d)) eqn:E;
    [|discriminate].
  injection Hs as <-.
  pose proof (cell_at_life w h b (x + Neighbour.x d) (y + Neighbour.y d)) as EcB.
  rewrite E in EcB.
  destruct (opposite_slot d Hd) as (d' & Hd' & Hdx & Hdy).
  eexists _, d'. split.
  { unfold life. apply grid_lookup. apply coords_ref in E. tauto. }
  split; [done|]. split; [done|]. split; [done|].
  apply cell_at_neighbours in EcB as (_ & _ & Hn' & _).
  cbn [neighbours gcell] in Hn'. cbn [neighbours gcell]. rewrite Hn'.
  rewrite (slot_spec w h b) by done. rewrite Hdx, Hdy.
  replace (x + Neighbour.x d + - Neighbour.x d) with x by lia.
  replace (y + Neighbour.y d + - Neighbour.y d) with y by lia.
  by rewrite HrA.
Qed.

(** X2 on the 3 by 3 universe: the corner and the cell to its right. *)
Lemma neighbours_symmetric_witness :
  ∃ cA cB d',
    cell_at corner_universe 0 0 = Some cA
    ∧ Neighbour.__get__ Neighbours.right (neighbours cA) = CellRef 1%nat
    ∧ store corner_universe !! 1%nat = Some cB
    ∧ d' ∈ Neighbours.all
    ∧ Neighbour.x d' = - Neighbour.x Neighbours.right
    ∧ Neighbour.y d' = - Neighbour.y Neighbours.right
    ∧ Neighbour.__get__ d' (neighbours cB) = CellRef 0%nat.
Proof.
  destruct (cell_at corner_universe 0 0) as [cA|] eqn:EcA;
    [|vm_compute in EcA; discriminate].
  assert (Neighbour.__get__ Neighbours.right (neighbours cA) = CellRef 1%nat)
    as Hs.
  { vm_compute in EcA. injection EcA as <-. vm_compute. reflexivity. }
  destruct (neighbours_symmetric 3 3 corner_universe 0 0 Neighbours.right
              cA 0%nat 1%nat reachable_corner_universe ltac:(in_all) EcA
              ltac:(vm_compute; reflexivity) Hs)
    as (cB & d' & H1 & H2 & H3 & H4 & H5).
  exists cA, cB, d'.
  repeat (split; [first [assumption|reflexivity]|]). assumption.
Defined.

Lemma concat_grid_board w h : concat (grid_board w h) = seq 0 (ncells w h).
Proof.
  unfold grid_board, ncells.
  induction (Z.to_nat h) as [|n IH]; [by rewrite Nat.mul_0_r|].
  rewrite seq_S, fmap_app, concat_app, IH. simpl. rewrite app_nil_r.
  unfold row_refs.
  replace (Z.to_nat w * S n)%nat with (Z.to_nat w * n + Z.to_nat w)%nat by lia.
  rewrite seq_app. simpl. by rewrite (Nat.mul_comm n).
Qed.

Lemma to_nat_ref w x y :
  0 ≤ x → 0 ≤ y → 0 ≤ w →
  Z.to_nat (y * w + x) = (Z.to_nat y * Z.to_nat w + Z.to_nat x)%nat.
Proof. intros. rewrite Z2Nat.inj_add, Z2Nat.inj_mul by nia. done. Qed.

(** X3.  The flat list and the board hold the same cells: [cells] is the
    concatenation of the board's rows, without repetition, and lists every
    cell object.  The cell at column [x] of row [y] is entry [y * width + x]
    of the flat list and carries [pos_x = x] and [pos_y = y]; no operation
    changes this. *)
Theorem flat_order w h u :
  reachable w h u →
  cells u = (Ok (concat (_board u)), u)
  ∧ NoDup (_cells u)
  ∧ length (_cells u) = length (store u)
  ∧ ∀ x y, 0 ≤ x < w → 0 ≤ y < h →
      ∃ r c,
        ref_at u x y = Some r
        ∧ _cells u !! Z.to_nat (y * w + x) = Some r
        ∧ store u !! r = Some c ∧ pos_x c = x ∧ pos_y c = y.
Proof.
  intros Hu. destruct (reachable_life w h u Hu) as [b ->].
  split.
  { unfold cells, gets. cbn [_cells _board life grid].
    by rewrite concat_grid_board. }
  split; [apply NoDup_seq|].
  split; [cbn [_cells store life grid]; by rewrite length_fmap|].
  intros x y Hx Hy.
  destruct (cell_at (life w h b) x y) as [c|] eqn:Ec.
  2:{ rewrite cell_at_life, in_grid_true in Ec by lia. discriminate. }
  pose proof Ec as Ec'.
  apply cell_at_neighbours in Ec' as (_ & _ & _ & Hpx & Hpy & Hr).
  eexists _, c. split; [exact Hr|]. split.
  { cbn [_cells life grid].
    assert (in_grid w h x y = true) as E by (apply in_grid_true; lia).
    apply coords_ref in E as [Hlt _].
    rewrite to_nat_ref by lia. by rewrite lookup_seq_lt. }
  unfold cell_at in Ec. rewrite Hr in Ec. done.
Qed.

(** X3 on the 5 by 5 blinker. *)
Lemma flat_order_witness :
  cells blinker_universe = (Ok (concat (_board blinker_universe)), blinker_universe)
  ∧ NoDup (_cells blinker_universe)
  ∧ length (_cells blinker_universe) = length (store blinker_universe)
  ∧ ∀ x y, 0 ≤ x < 5 → 0 ≤ y < 5 →
      ∃ r c,
        ref_at blinker_universe x y = Some r
        ∧ _cells blinker_universe !! Z.to_nat (y * 5 + x) = Some r
        ∧ store blinker_universe !! r = Some c ∧ pos_x c = x ∧ pos_y c = y.
Proof. exact (flat_order 5 5 blinker_universe reachable_blinker_universe). Defined.

Lemma b2z_range b : 0 ≤ Z.b2z b ≤ 1.
Proof. destruct b; simpl; lia. Qed.

Lemma alive_at_off w h b x y :
  ¬ (0 ≤ x < w ∧ 0 ≤ y < h) → alive_at (life w h b) x y = false.
Proof. intros Hn. by rewrite alive_at_life, in_grid_false. Qed.

(** X4.  [get_alive_count] only reads: on the neighbours of any cell of any
    universe it returns normally and leaves the universe as it was.  The
    count lies between 0 and 8, is at most 5 for a cell on the border of the
    board and at most 3 for a corner cell. *)
Theorem alive_count_bounds w h u x y :
  reachable w h u → 0 ≤ x < w → 0 ≤ y < h →
  ∃ c n,
    cell_at u x y = Some c
    ∧ Neighbours.get_alive_count (neighbours c) u = (Ok (Some n), u)
    ∧ 0 ≤ n ≤ 8
    ∧ (x = 0 ∨ x = w - 1 ∨ y = 0 ∨ y = h - 1 → n ≤ 5)
    ∧ ((x = 0 ∨ x = w - 1) ∧ (y = 0 ∨ y = h - 1) → n ≤ 3).
Proof.
  intros Hu Hx Hy. destruct (reachable_life w h u Hu) as [b ->].
  assert (in_grid w h x y = true) as E by (apply in_grid_true; lia).
  destruct (coords_ref w h x y E) as (Hi & Ex & Ey).
  eexists _, (count_at (life w h b) x y).
  split; [by rewrite cell_at_life, E|].
  cbn [neighbours gcell]. unfold life at 1.
  rewrite get_alive_count_run. fold (life w h b).
  rewrite <- count_at_ref, Ex, Ey. split; [reflexivity|].
  unfold count_at.
  pose proof (b2z_range (alive_at (life w h b) x (y - 1))).
  pose proof (b2z_range (alive_at (life w h b) (x + 1) (y - 1))).
  pose proof (b2z_range (alive_at (life w h b) (x + 1) y)).
  pose proof (b2z_range (alive_at (life w h b) (x + 1) (y + 1))).
  pose proof (b2z_range (alive_at (life w h b) x (y + 1))).
  pose proof (b2z_range (alive_at (life w h b) (x - 1) (y + 1))).
  pose proof (b2z_range (alive_at (life w h b) (x - 1) y)).
  pose proof (b2z_range (alive_at (life w h b) (x - 1) (y - 1))).
  split; [lia|]. split.
  - intros [->|[->|[->| ->]]].
    + rewrite !(alive_at_off w h b (0 - 1)) by lia. simpl. lia.
    + rewrite !(alive_at_off w h b (w - 1 + 1)) by lia. simpl. lia.
    + rewrite !(alive_at_off w h b _ (0 - 1)) by lia. simpl. lia.
    + rewrite !(alive_at_off w h b _ (h - 1 + 1)) by lia. simpl. lia.
  - intros [[->| ->] [->| ->]].
    + rewrite !(alive_at_off w h b (0 - 1)), !(alive_at_off w h b _ (0 - 1))
        by lia. simpl. lia.
    + rewrite !(alive_at_off w h b (0 - 1)), !(alive_at_off w h b _ (h - 1 + 1))
        by lia. simpl. lia.
    + rewrite !(alive_at_off w h b (w - 1 + 1)), !(alive_at_off w h b _ (0 - 1))
        by lia. simpl. lia.
    + rewrite !(alive_at_off w h b (w - 1 + 1)),
        !(alive_at_off w h b _ (h - 1 + 1)) by lia. simpl. lia.
Qed.

(** X4 at the centre of the 5 by 5 blinker. *)
Lemma alive_count_bounds_witness :
  ∃ c n,
    cell_at blinker_universe 2 2 = Some c
    ∧ Neighbours.get_alive_count (neighbours c) blinker_universe
      = (Ok (Some n), blinker_universe)
    ∧ 0 ≤ n ≤ 8
    ∧ (2 = 0 ∨ 2 = 5 - 1 ∨ 2 = 0 ∨ 2 = 5 - 1 → n ≤ 5)
    ∧ ((2 = 0 ∨ 2 = 5 - 1) ∧ (2 = 0 ∨ 2 = 5 - 1) → n ≤ 3).
Proof.
  apply (alive_count_bounds 5 5 blinker_universe 2 2
           reachable_blinker_universe); lia.
Defined.

Lemma ref_alive_life w h b i :
  (i < ncells w h)%nat → ref_alive (life w h b) i = b i.
Proof.
  intros Hi. unfold ref_alive, life. rewrite grid_lookup by done.
  cbn [_state gcell]. apply truthy_b2z.
Qed.

Lemma touched_alive w h b i :
  touched w h b i = b i || next_alive w h b i.
Proof. unfold touched, next_alive. by destruct (b i). Qed.

(** X5.  [tick] returns, in flat order and once each, exactly the cells that
    are alive before the tick or alive after it.  So every cell whose state
    the tick flipped is in the result, and a cell that is not in the result
    was dead and stays dead. *)
Theorem tick_returns w h u :
  reachable w h u →
  ∃ changed u',
    tick u = (Ok changed, u')
    ∧ changed = filter (λ r, ref_alive u r || ref_alive u' r) (_cells u)
    ∧ (∀ r, r ∈ _cells u → ref_alive u r ≠ ref_alive u' r → r ∈ changed)
    ∧ (∀ r, r ∈ _cells u → r ∉ changed →
         ref_alive u r = false ∧ ref_alive u' r = false).
Proof.
  intros Hu. destruct (reachable_life w h u Hu) as [b ->].
  eexists _, _. split; [apply tick_run|].
  assert (filter (touched w h b) (seq 0 (ncells w h))
          = filter (λ r, ref_alive (life w h b) r
                         || ref_alive (life w h (next_alive w h b)) r)
                   (_cells (life w h b))) as Hf.
  { cbn [_cells life grid]. apply filter_ext_in. intros i Hi.
    apply elem_of_seq in Hi.
    rewrite !ref_alive_life by lia. apply touched_alive. }
  split; [exact Hf|]. rewrite Hf. split.
  - intros r Hr Hne. apply list_elem_of_filter. split; [|done].
    destruct (ref_alive (life w h b) r),
      (ref_alive (life w h (next_alive w h b)) r); done.
  - intros r Hr Hnot.
    destruct (ref_alive (life w h b) r) eqn:E1;
      destruct (ref_alive (life w h (next_alive w h b)) r) eqn:E2;
      try done; exfalso; apply Hnot, list_elem_of_filter;
      (split; [by rewrite E1, E2|done]).
Qed.

(** X5 on the 5 by 5 blinker. *)
Lemma tick_returns_witness :
  ∃ u,
    u = blinker_universe ∧ reachable 5 5 u
    ∧ ∃ changed u',
        tick u = (Ok changed, u')
        ∧ changed = filter (λ r, ref_alive u r || ref_alive u' r) (_cells u)
        ∧ (∀ r, r ∈ _cells u → ref_alive u r ≠ ref_alive u' r → r ∈ changed)
        ∧ (∀ r, r ∈ _cells u → r ∉ changed →
             ref_alive u r = false ∧ ref_alive u' r = false).
Proof.
  exists blinker_universe. split; [reflexivity|].
  split; [exact reachable_blinker_universe|].
  exact (tick_returns 5 5 blinker_universe reachable_blinker_universe).
Defined.

(** X6.  [__setitem__] with [x] outside [-width ≤ x < width] or [y] outside
    [-height ≤ y < height] raises [IndexError] and leaves the universe as it
    was. *)
Theorem setitem_out_of_range w h u x y alive :
  reachable w h u → ¬ (- w ≤ x < w ∧ - h ≤ y < h) →
  __setitem__ (x, y) alive u = (Raise IndexError, u).
Proof.
  intros Hu Hn. destruct (reachable_life w h u Hu) as [b ->].
  rewrite setitem_run.
  destruct (Z.leb_spec (- h) y), (Z.ltb_spec y h), (Z.leb_spec (- w) x),
    (Z.ltb_spec x w); simpl; try reflexivity. lia.
Qed.

(** X6 on the 3 by 3 universe, one column too far. *)
Lemma setitem_out_of_range_witness :
  __setitem__ (3, 0) true corner_universe = (Raise IndexError, corner_universe).
Proof.
  apply (setitem_out_of_range 3 3 corner_universe 3 0 true
           reachable_corner_universe). lia.
Defined.

Lemma filter_none (P : nat → bool) (l : list nat) :
  (∀ i, i ∈ l → P i = false) → filter P l = [].
Proof.
  induction l as [|a l IH]; intros E; [reflexivity|].
  rewrite filter_cons, (E a) by left. simpl.
  apply IH. intros i Hi. apply E. by right.
Qed.

(** X7.  A universe with no live cell stays as it is: [tick] returns no
    cell and changes nothing. *)
Theorem tick_dead w h u :
  reachable w h u → (∀ x y, alive_at u x y = false) → tick u = (Ok [], u).
Proof.
  intros Hu Hd. destruct (reachable_life w h u Hu) as [b ->].
  assert (∀ i, (i < ncells w h)%nat → b i = false) as Hb.
  { intros i Hi. by rewrite <- (alive_at_ref w h b i Hi). }
  assert (∀ i, (i < ncells w h)%nat → nbcount w h b i = 0) as Hc.
  { intros i Hi. rewrite <- count_at_ref. unfold count_at. by rewrite !Hd. }
  rewrite tick_run. f_equal; [f_equal|].
  - apply filter_none. intros i Hi. apply elem_of_seq in Hi.
    unfold touched. by rewrite Hb, Hc by lia.
  - apply life_ext. intros i Hi. unfold next_alive. by rewrite Hb, Hc.
Qed.

(** X7 on a fresh 3 by 3 universe. *)
Lemma tick_dead_witness :
  tick (snd (construct 3 3)) = (Ok [], snd (construct 3 3)).
Proof.
  apply (tick_dead 3 3); [apply reach_construct|].
  intros x y. rewrite construct_run. simpl snd. rewrite alive_at_life.
  by destruct (in_grid 3 3 x y).
Defined.

Lemma block_off_far dx dy :
  dx < 0 ∨ 1 < dx ∨ dy < 0 ∨ 1 < dy → block_off dx dy = false.
Proof.
  intros Hfar. unfold block_off.
  destruct (Z.leb_spec 0 dx), (Z.leb_spec dx 1), (Z.leb_spec 0 dy),
    (Z.leb_spec dy 1); simpl; try reflexivity; lia.
Qed.

Lemma block_cases d : -1 ≤ d ≤ 2 → d = -1 ∨ d = 0 ∨ d = 1 ∨ d = 2.
Proof. lia. Qed.

(** Conway's rule leaves a block as it is. *)
Lemma block_rule dx dy :
  (if block_off dx dy
   then (block_count dx dy =? 2) || (block_count dx dy =? 3)
   else block_count dx dy =? 3)
  = block_off dx dy.
Proof.
  destruct (decide (-1 ≤ dx ≤ 2 ∧ -1 ≤ dy ≤ 2)) as [[Hdx Hdy]|Hfar].
  - apply block_cases in Hdx, Hdy.
    destruct Hdx as [->|[->|[->| ->]]]; destruct Hdy as [->|[->|[->| ->]]];
      vm_compute; reflexivity.
  - unfold block_count. rewrite !block_off_far by lia. reflexivity.
Qed.

(** X8.  A 2 by 2 block is a still life wherever it lies on the board, the
    border included: [tick] leaves the universe exactly as it was.  It
    returns the live cells all the same. *)
Theorem block_still w h u cx cy :
  reachable w h u → (∀ x y, alive_at u x y = block cx cy x y) →
  ∃ changed,
    tick u = (Ok changed, u)
    ∧ changed = filter (ref_alive u) (_cells u).
Proof.
  intros Hu Hb. destruct (reachable_life w h u Hu) as [b ->].
  assert (∀ x y, count_at (life w h b) x y = block_count (x - cx) (y - cy))
    as Hc.
  { intros x y. unfold count_at, block_count. rewrite !Hb. unfold block.
    replace (x + 1 - cx) with (x - cx + 1) by lia.
    replace (x - 1 - cx) with (x - cx - 1) by lia.
    replace (y + 1 - cy) with (y - cy + 1) by lia.
    replace (y - 1 - cy) with (y - cy - 1) by lia. reflexivity. }
  assert (∀ i, (i < ncells w h)%nat → next_alive w h b i = b i) as Hn.
  { intros i Hi. unfold next_alive.
    rewrite <- count_at_ref, Hc, <- (alive_at_ref w h b i Hi), Hb.
    apply block_rule. }
  eexists. split.
  - rewrite tick_run. f_equal. by apply life_ext.
  - cbn [_cells life grid]. apply filter_ext_in. intros i Hi.
    apply elem_of_seq in Hi.
    rewrite touched_alive, Hn, ref_alive_life by lia. by destruct (b i).
Qed.

Lemma block_universe_alive x y :
  alive_at block_universe x y = block 1 1 x y.
Proof.
  assert (block_universe
          = life 4 4 (λ i, bool_decide (i ∈ [5; 6; 9; 10]%nat))) as ->
    by (vm_compute; reflexivity).
  rewrite alive_at_life. destruct (in_grid 4 4 x y) eqn:E.
  - apply in_grid_spec in E as [Hx Hy].
    assert (x = 0 ∨ x = 1 ∨ x = 2 ∨ x = 3) as Hxs by lia.
    assert (y = 0 ∨ y = 1 ∨ y = 2 ∨ y = 3) as Hys by lia.
    destruct Hxs as [->|[->|[->| ->]]]; destruct Hys as [->|[->|[->| ->]]];
      vm_compute; reflexivity.
  - symmetry. apply block_off_far.
    apply not_true_iff_false in E. rewrite in_grid_spec in E. lia.
Qed.

(** X8 on the 4 by 4 universe with the block in its middle. *)
Lemma block_still_witness :
  ∃ u,
    u = block_universe
    ∧ reachable 4 4 u
    ∧ (∀ x y, alive_at u x y = block 1 1 x y)
    ∧ ∃ changed,
        tick u = (Ok changed, u) ∧ changed = filter (ref_alive u) (_cells u).
Proof.
  exists block_universe. split; [reflexivity|].
  assert (reachable 4 4 block_universe) as Hr
    by apply reachable_seed, reach_construct.
  split; [exact Hr|]. split; [exact block_universe_alive|].
  exact (block_still 4 4 block_universe 1 1 Hr block_universe_alive).
Defined.

Lemma setitem_in_range w h b x y alive :
  - w ≤ x < w → - h ≤ y < h →
  __setitem__ (x, y) alive (life w h b)
  = (Ok tt,
     life w h (λ i, if decide (i = Z.to_nat (y mod h) * Z.to_nat w
                                  + Z.to_nat (x mod w))%nat
                    then alive else b i)).
Proof.
  intros Hx Hy. rewrite setitem_run.
  rewrite (proj2 (Z.leb_le (- h) y)), (proj2 (Z.ltb_lt y h)) by lia.
  rewrite (proj2 (Z.leb_le (- w) x)), (proj2 (Z.ltb_lt x w)) by lia.
  reflexivity.
Qed.

(** X9.  What [__setitem__] writes, [to_list] reads back: after
    [universe[x, y] = alive] with the coordinates in range, the matrix holds
    [alive] at row [y mod height], column [x mod width], and every other
    entry is what it was. *)
Theorem setitem_to_list w h u x y alive :
  reachable w h u → - w ≤ x < w → - h ≤ y < h →
  ∃ u' m m0,
    __setitem__ (x, y) alive u = (Ok tt, u')
    ∧ to_list u' = (Ok m, u')
    ∧ to_list u = (Ok m0, u)
    ∧ m !! Z.to_nat (y mod h) ≫= (λ row, row !! Z.to_nat (x mod w)) = Some alive
    ∧ ∀ i j : nat,
        (i, j) ≠ (Z.to_nat (y mod h), Z.to_nat (x mod w)) →
        m !! i ≫= (λ row, row !! j) = m0 !! i ≫= (λ row, row !! j).
Proof.
  intros Hu Hx Hy. destruct (reachable_life w h u Hu) as [b ->].
  pose proof (Z.mod_pos_bound x w ltac:(lia)) as Hxm.
  pose proof (Z.mod_pos_bound y h ltac:(lia)) as Hym.
  eexists _, _, _. split; [by apply setitem_in_range|].
  split; [apply to_list_run|]. split; [apply to_list_run|]. split.
  - rewrite list_lookup_fmap, lookup_seq_lt by lia. simpl.
    rewrite list_lookup_fmap, lookup_seq_lt by lia. simpl.
    by rewrite decide_True.
  - intros i j Hne. rewrite !list_lookup_fmap.
    destruct (seq 0 (Z.to_nat h) !! i) as [i'|] eqn:Ei; [|reflexivity].
    apply lookup_seq in Ei as [-> Hi]. simpl.
    rewrite !list_lookup_fmap.
    destruct (seq 0 (Z.to_nat w) !! j) as [j'|] eqn:Ej; [|reflexivity].
    apply lookup_seq in Ej as [-> Hj]. simpl.
    rewrite decide_False; [reflexivity|]. intros Heq.
    apply ref_inj in Heq as [-> ->]; [|lia..]. by apply Hne.
Qed.

(** X9 on the 3 by 3 universe, written at [(-1, -3)]. *)
Lemma setitem_to_list_witness :
  ∃ u' m m0,
    __setitem__ (-1, -3) true corner_universe = (Ok tt, u')
    ∧ to_list u' = (Ok m, u')
    ∧ to_list corner_universe = (Ok m0, corner_universe)
    ∧ m !! Z.to_nat (-3 mod 3) ≫= (λ row, row !! Z.to_nat (-1 mod 3)) = Some true
    ∧ ∀ i j : nat,
        (i, j) ≠ (Z.to_nat (-3 mod 3), Z.to_nat (-1 mod 3)) →
        m !! i ≫= (λ row, row !! j) = m0 !! i ≫= (λ row, row !! j).
Proof.
  apply (setitem_to_list 3 3 corner_universe (-1) (-3) true
           reachable_corner_universe); lia.
Defined.

(** X10.  Two writes in a row: when they address the same cell the second
    one wins, whatever the first wrote, and when they address different
    cells their order does not matter. *)
Theorem setitem_compose w h u x1 y1 a1 x2 y2 a2 :
  reachable w h u →
  - w ≤ x1 < w → - h ≤ y1 < h → - w ≤ x2 < w → - h ≤ y2 < h →
  ((x1 mod w, y1 mod h) = (x2 mod w, y2 mod h) →
   snd (__setitem__ (x2, y2) a2 (snd (__setitem__ (x1, y1) a1 u)))
   = snd (__setitem__ (x2, y2) a2 u))
  ∧ ((x1 mod w, y1 mod h) ≠ (x2 mod w, y2 mod h) →
     snd (__setitem__ (x2, y2) a2 (snd (__setitem__ (x1, y1) a1 u)))
     = snd (__setitem__ (x1, y1) a1 (snd (__setitem__ (x2, y2) a2 u)))).
Proof.
  intros Hu Hx1 Hy1 Hx2 Hy2. destruct (reachable_life w h u Hu) as [b ->].
  pose proof (Z.mod_pos_bound x1 w ltac:(lia)) as Hxm1.
  pose proof (Z.mod_pos_bound y1 h ltac:(lia)) as Hym1.
  pose proof (Z.mod_pos_bound x2 w ltac:(lia)) as Hxm2.
  pose proof (Z.mod_pos_bound y2 h ltac:(lia)) as Hym2.
  rewrite !setitem_in_range by done. cbn [snd].
  rewrite !setitem_in_range by done. cbn [snd].
  split.
  - intros [= -> ->]. apply life_ext. intros i _. by case_decide.
  - intros Hne. apply life_ext. intros i _.
    repeat case_decide; try reflexivity. subst i.
    exfalso. apply Hne.
    match goal with H : _ = _ |- _ => apply ref_inj in H as [Ex Ey]; [|lia..] end.
    f_equal; lia.
Qed.

(** X10 on the 3 by 3 universe: [(-1, 0)] and [(2, 0)] name the same cell. *)
Lemma setitem_compose_witness :
  snd (__setitem__ (2, 0) false (snd (__setitem__ (-1, 0) true corner_universe)))
  = snd (__setitem__ (2, 0) false corner_universe).
Proof.
  destruct (setitem_compose 3 3 corner_universe (-1) 0 true 2 0 false
              reachable_corner_universe) as [Hsame _]; [lia..|].
  apply Hsame. reflexivity.
Defined.

(** X11.  Staging a value on a cell with nothing pending and committing it
    makes [is_alive] report that value; the slot is clear again, so the cell
    can be staged anew, and position and neighbours are untouched. *)
Theorem stage_commit (c : Cell) (alive : bool) :
  _state_dirty c = None →
  ∃ c',
    (set_is_alive alive ≫= λ _, commit) c = (Ok tt, c')
    ∧ is_alive c' = (Ok alive, c')
    ∧ _state_dirty c' = None
    ∧ pos_x c' = pos_x c ∧ pos_y c' = pos_y c ∧ neighbours c' = neighbours c.
Proof.
  intros Hd. eexists. split.
  { rewrite bind_run. unfold set_is_alive. rewrite bind_run. unfold gets at 1.
    rewrite Hd. reflexivity. }
  unfold is_alive, gets. cbn. by destruct alive.
Qed.

(** X11 on a fresh dead cell, staged alive. *)
Lemma stage_commit_witness :
  ∃ c',
    (set_is_alive true ≫= λ _, commit) (Cell__init__ false 0 0) = (Ok tt, c')
    ∧ is_alive c' = (Ok true, c')
    ∧ _state_dirty c' = None
    ∧ pos_x c' = pos_x (Cell__init__ false 0 0)
    ∧ pos_y c' = pos_y (Cell__init__ false 0 0)
    ∧ neighbours c' = neighbours (Cell__init__ false 0 0).
Proof. apply (stage_commit (Cell__init__ false 0 0) true). reflexivity. Defined.

(** * The batch entry point *)

Lemma enum_from_imap {A} (l : list A) j :
  imap (λ i a, (Z.of_nat (j + i), a)) l = enum_from j l.
Proof.
  revert j. induction l as [|a l IH]; intros j; [reflexivity|].
  simpl. rewrite Nat.add_0_r. f_equal. rewrite <- IH.
  apply imap_ext. intros i x _. simpl. do 2 f_equal. lia.
Qed.

Lemma enumerate_enum_from {A} (l : list A) : enumerate l = enum_from 0 l.
Proof. unfold enumerate. by rewrite <- enum_from_imap. Qed.

Section Seeding.
Variables (config : Config) (W H : nat).
Abbreviation w := (Z.of_nat W).
Abbreviation h := (Z.of_nat H).
Abbreviation elo := (elo_sejt config).

(** The body of the inner loop of [seed_table] in row [k]. *)
Abbreviation seed_cell k :=
  (λ '(col_ptr, cell),
     if bool_decide (cell = elo_sejt config)
     then __setitem__ (col_ptr, Z.of_nat k) true
     else ret tt : M Universe unit).

Lemma seed_cell_in b (k j : nat) :
  (k < H)%nat → (j < W)%nat →
  __setitem__ (Z.of_nat j, Z.of_nat k) true (life w h b)
  = (Ok tt, life w h (λ i, if decide (i = k * W + j)%nat then true else b i)).
Proof.
  intros Hk Hj. rewrite setitem_in_range by lia.
  rewrite !Z.mod_small, !Nat2Z.id by lia. reflexivity.
Qed.

Lemma seed_cell_out b (k j : nat) :
  (W ≤ j)%nat →
  __setitem__ (Z.of_nat j, Z.of_nat k) true (life w h b)
  = (Raise IndexError, life w h b).
Proof.
  intros Hj. rewrite setitem_run.
  rewrite (proj2 (Z.ltb_ge (Z.of_nat j) w)) by lia.
  by rewrite !andb_false_r.
Qed.

Lemma row_fits_or_not (l : list (list N)) (j : nat) :
  (∀ n, l !! n = Some elo → (j + n < W)%nat)
  ∨ (∃ n, l !! n = Some elo ∧ (W ≤ j + n)%nat).
Proof.
  revert j. induction l as [|a l IH]; intros j.
  - left. intros n Hn. by rewrite lookup_nil in Hn.
  - destruct (IH (S j)) as [Hfit|(n & Hn & Hge)].
    + destruct (decide (a = elo ∧ (W ≤ j)%nat)) as [[-> Hj]|Hna].
      * right. exists 0%nat. split; [done|lia].
      * left. intros [|n] Hn.
        -- injection Hn as ->. destruct (decide (W ≤ j)%nat); [|lia].
           exfalso. by apply Hna.
        -- specialize (Hfit n Hn). lia.
    + right. exists (S n). split; [done|lia].
Qed.

Lemma seed_row_ok (k : nat) (l : list (list N)) : ∀ j b,
  (k < H)%nat →
  (∀ n, l !! n = Some elo → (j + n < W)%nat) →
  ∃ b',
    forM_ (enum_from j l) (seed_cell k) (life w h b) = (Ok tt, life w h b')
    ∧ ∀ i, b' i = true
           ↔ b i = true ∨ ∃ n, l !! n = Some elo ∧ i = (k * W + (j + n))%nat.
Proof.
  induction l as [|a l IH]; intros j b Hk Hfit.
  - exists b. split; [reflexivity|]. intros i. split; [tauto|].
    intros [Hb|(n & Hn & _)]; [done|]. by rewrite lookup_nil in Hn.
  - simpl enum_from. rewrite forM__cons, bind_run. cbn beta iota.
    destruct (bool_decide (a = elo)) eqn:Ea.
    + apply bool_decide_eq_true in Ea as ->.
      rewrite seed_cell_in by (try done; specialize (Hfit 0%nat eq_refl); lia).
      destruct (IH (S j) (λ i, if decide (i = k * W + j)%nat then true else b i)
                  Hk) as (b' & Hrun & Hb').
      { intros n Hn. specialize (Hfit (S n) Hn). lia. }
      exists b'. split; [exact Hrun|]. intros i. rewrite Hb'. split.
      * intros [Hi|(n & Hn & ->)].
        -- case_decide as Hd; [|by left].
           right. exists 0%nat. split; [done|]. subst i. lia.
        -- right. exists (S n). split; [done|lia].
      * intros [Hi|([|n] & Hn & ->)].
        -- left. case_decide; done.
        -- left. rewrite decide_True; [done|lia].
        -- right. exists n. split; [done|lia].
    + apply bool_decide_eq_false in Ea.
      unfold ret at 1.
      destruct (IH (S j) b Hk) as (b' & Hrun & Hb').
      { intros n Hn. specialize (Hfit (S n) Hn). lia. }
      exists b'. split; [exact Hrun|]. intros i. rewrite Hb'. split.
      * intros [Hi|(n & Hn & ->)]; [by left|].
        right. exists (S n). split; [done|lia].
      * intros [Hi|([|n] & Hn & ->)]; [by left| |].
        -- injection Hn as ->. done.
        -- right. exists n. split; [done|lia].
Qed.

Lemma seed_row_fail (k : nat) (l : list (list N)) : ∀ j b,
  (k < H)%nat →
  (∃ n, l !! n = Some elo ∧ (W ≤ j + n)%nat) →
  ∃ u', forM_ (enum_from j l) (seed_cell k) (life w h b) = (Raise IndexError, u').
Proof.
  induction l as [|a l IH]; intros j b Hk (n & Hn & Hge).
  - by rewrite lookup_nil in Hn.
  - simpl enum_from. rewrite forM__cons, bind_run. cbn beta iota.
    destruct (bool_decide (a = elo)) eqn:Ea.
    + apply bool_decide_eq_true in Ea as ->.
      destruct (decide (j < W)%nat) as [Hj|Hj].
      * rewrite seed_cell_in by done. apply IH; [done|].
        destruct n as [|n]; [lia|]. exists n. split; [done|lia].
      * rewrite seed_cell_out by lia. eauto.
    + apply bool_decide_eq_false in Ea. unfold ret at 1.
      apply IH; [done|].
      destruct n as [|n]; [by injection Hn as ->|].
      exists n. split; [done|lia].
Qed.

(** The body of the outer loop of [seed_table]. *)
Abbreviation seed_row :=
  (λ '(row_ptr, row),
     forM_ (enumerate row) (λ '(col_ptr, cell),
       if bool_decide (cell = elo_sejt config)
       then __setitem__ (col_ptr, row_ptr) true
       else ret tt) : M Universe unit).

Lemma seed_rows_ok (L : list (list (list N))) : ∀ k b,
  (k + length L ≤ H)%nat →
  (∀ m row n, L !! m = Some row → row !! n = Some elo → (n < W)%nat) →
  ∃ b',
    forM_ (enum_from k L) seed_row (life w h b) = (Ok tt, life w h b')
    ∧ ∀ i, b' i = true
           ↔ b i = true
             ∨ ∃ m row n, L !! m = Some row ∧ row !! n = Some elo
                          ∧ i = ((k + m) * W + n)%nat.
Proof.
  induction L as [|row L IH]; intros k b Hk Hfit.
  - exists b. split; [reflexivity|]. intros i. split; [tauto|].
    intros [Hb|(m & r & n & Hm & _)]; [done|]. by rewrite lookup_nil in Hm.
  - simpl enum_from. rewrite forM__cons, bind_run. cbn beta iota.
    rewrite enumerate_enum_from. simpl in Hk.
    destruct (seed_row_ok k row 0 b ltac:(lia)) as (b1 & Hrun1 & Hb1).
    { intros n Hn. specialize (Hfit 0%nat row n eq_refl Hn). lia. }
    rewrite Hrun1.
    destruct (IH (S k) b1 ltac:(lia)) as (b' & Hrun & Hb').
    { intros m r n Hm Hn. exact (Hfit (S m) r n Hm Hn). }
    exists b'. split; [exact Hrun|]. intros i. rewrite Hb', Hb1. split.
    + intros [[Hi|(n & Hn & ->)]|(m & r & n & Hm & Hn & ->)].
      * by left.
      * right. exists 0%nat, row, n. split; [done|]. split; [done|lia].
      * right. exists (S m), r, n. split; [done|]. split; [done|lia].
    + intros [Hi|([|m] & r & n & Hm & Hn & ->)].
      * by left; left.
      * injection Hm as ->. left. right. exists n. split; [done|lia].
      * right. exists m, r, n. split; [done|]. split; [done|lia].
Qed.

Lemma seed_rows_fail (L : list (list (list N))) : ∀ k b,
  (k + length L ≤ H)%nat →
  (∃ m row n, L !! m = Some row ∧ row !! n = Some elo ∧ (W ≤ n)%nat) →
  ∃ u', forM_ (enum_from k L) seed_row (life w h b) = (Raise IndexError, u').
Proof.
  induction L as [|row L IH]; intros k b Hk (m & r & n & Hm & Hn & Hge).
  - by rewrite lookup_nil in Hm.
  - simpl enum_from. rewrite forM__cons, bind_run. cbn beta iota.
    rewrite enumerate_enum_from. simpl in Hk.
    destruct (row_fits_or_not row 0) as [Hfit|Hbad].
    + destruct (seed_row_ok k row 0 b ltac:(lia) Hfit) as (b1 & Hrun1 & _).
      rewrite Hrun1. apply IH; [lia|].
      destruct m as [|m].
      * injection Hm as ->. specialize (Hfit n Hn). lia.
      * exists m, r, n. done.
    + destruct (seed_row_fail k row 0 b ltac:(lia) Hbad) as (u' & Hrun1).
      rewrite Hrun1. eauto.
Qed.
End Seeding.

Lemma cfg_alive_spec config x y :
  cfg_alive config x y = true
  ↔ 0 ≤ x ∧ 0 ≤ y
    ∧ ∃ row, tabla config !! Z.to_nat y = Some row
             ∧ row !! Z.to_nat x = Some (elo_sejt config).
Proof.
  unfold cfg_alive.
  destruct (Z.leb_spec 0 x), (Z.leb_spec 0 y); simpl;
    try (split; [discriminate|lia]).
  destruct (tabla config !! Z.to_nat y) as [row|] eqn:Er; simpl.
  - destruct (row !! Z.to_nat x) as [cell|] eqn:Ec.
    + rewrite bool_decide_eq_true. split.
      * intros ->. eauto.
      * intros (_ & _ & r & [= <-] & Hc). congruence.
    + split; [discriminate|]. intros (_ & _ & r & [= <-] & Hc). congruence.
  - split; [discriminate|]. intros (_ & _ & r & Hr & _). discriminate.
Qed.

Lemma seeded_alive config (W H : nat) (bF : nat → bool) :
  H = length (tabla config) →
  (∀ x y, cfg_alive config x y = true → x < Z.of_nat W) →
  (∀ i, bF i = true
        ↔ ∃ m row n, tabla config !! m = Some row
                     ∧ row !! n = Some (elo_sejt config)
                     ∧ i = (m * W + n)%nat) →
  ∀ x y, alive_at (life (Z.of_nat W) (Z.of_nat H) bF) x y = cfg_alive config x y.
Proof.
  intros HH Hfit HbF x y. rewrite alive_at_life.
  destruct (in_grid (Z.of_nat W) (Z.of_nat H) x y) eqn:E.
  - apply in_grid_spec in E as [Hx Hy]. rewrite !Nat2Z.id.
    apply eq_true_iff_eq. rewrite HbF, cfg_alive_spec. split.
    + intros (m & row & n & Hm & Hn & Heq).
      assert (n < W)%nat as Hn'.
      { assert (cfg_alive config (Z.of_nat n) (Z.of_nat m) = true) as Ha.
        { apply cfg_alive_spec. rewrite !Nat2Z.id. split; [lia|].
          split; [lia|]. exists row. by split. }
        apply Hfit in Ha. lia. }
      pose proof (ref_inj (Z.of_nat W) (Z.to_nat x) (Z.to_nat y) n m) as Hinj.
      rewrite !Nat2Z.id in Hinj. destruct (Hinj ltac:(lia) Hn' Heq) as [-> ->].
      split; [lia|]. split; [lia|]. exists row. by split.
    + intros (_ & _ & row & Hr & Hc). exists (Z.to_nat y), row, (Z.to_nat x).
      by repeat split.
  - symmetry. apply not_true_iff_false. intros Ha.
    pose proof (Hfit x y Ha) as Hx.
    apply cfg_alive_spec in Ha as (Hx0 & Hy0 & row & Hr & _).
    apply lookup_lt_Some in Hr.
    apply not_true_iff_false in E. apply E, in_grid_spec. lia.
Qed.

Lemma conway_cfg config u :
  (∀ x y, alive_at u x y = cfg_alive config x y) →
  ∀ x y, conway u x y = cfg_next config x y.
Proof.
  intros Ha x y. unfold conway, cfg_next, count_at, cfg_count.
  by rewrite !Ha.
Qed.

Lemma next_state_run_nonempty config row0 :
  tabla config !! 0%nat = Some row0 →
  next_state_run config (mkUniverse [] [] [])
  = (seed_table config ≫= λ _, tick ≫= λ _, to_list ≫= λ table,
       ret (mkConfig (halott_sejt config) (elo_sejt config)
                     (relabel config table)))
      (life (len row0) (len (tabla config)) (λ _, false)).
Proof.
  intros H0. unfold next_state_run. rewrite bind_run.
  unfold getitem. rewrite py_index_nat by lia.
  change (Z.to_nat 0) with 0%nat. rewrite H0.
  unfold ret at 1. cbn zeta. rewrite bind_run.
  fold (construct (len row0) (len (tabla config))).
  by rewrite construct_run.
Qed.

Lemma next_state_no_rows config :
  tabla config = [] → next_state config = Raise IndexError.
Proof.
  intros Ht. unfold next_state, next_state_run. rewrite bind_run.
  unfold getitem. by rewrite Ht.
Qed.

(** X12.  [next_state] on a configuration whose table has no row raises
    [IndexError]: the width is read off the first row. *)
Theorem next_state_empty config :
  tabla config = [] → next_state config = Raise IndexError.
Proof.
  intros Ht. unfold next_state, next_state_run.
  rewrite bind_run. unfold getitem, py_index. rewrite Ht.
  reflexivity.
Qed.

(** X12 on a configuration with the markers alone. *)
Lemma next_state_empty_witness :
  next_state (mkConfig [46%N] [88%N] []) = Raise IndexError.
Proof. apply next_state_empty. reflexivity. Defined.

(** What [next_state] computes when the seeding succeeds: the relabelled
    matrix of the generation after the one the table describes. *)
Lemma next_state_core config row0 :
  tabla config !! 0%nat = Some row0 →
  (∀ x y, cfg_alive config x y = true → x < len row0) →
  ∃ bF,
    next_state config
    = Ok (mkConfig (halott_sejt config) (elo_sejt config)
            (relabel config
               (matrix (length row0) (length (tabla config))
                  (next_alive (len row0) (len (tabla config)) bF))))
    ∧ ∀ x y, alive_at (life (len row0) (len (tabla config)) bF) x y
             = cfg_alive config x y.
Proof.
  intros H0 Hfit. unfold next_state.
  rewrite (next_state_run_nonempty config row0 H0).
  set (W := length row0). set (H := length (tabla config)).
  destruct (seed_rows_ok config W H (tabla config) 0 (λ _, false))
    as (bF & Hrun & HbF); [unfold H; lia| |].
  { intros m row n Hm Hn.
    assert (cfg_alive config (Z.of_nat n) (Z.of_nat m) = true) as Ha.
    { apply cfg_alive_spec. rewrite !Nat2Z.id. split; [lia|].
      split; [lia|]. exists row. by split. }
    apply Hfit in Ha. unfold len in Ha. lia. }
  exists bF. split.
  - rewrite bind_run. unfold seed_table. rewrite enumerate_enum_from.
    unfold len. fold W H. rewrite Hrun.
    rewrite bind_run, tick_run, bind_run, to_list_run. unfold ret. cbn [fst].
    unfold matrix. by rewrite !Nat2Z.id.
  - unfold len. fold W H. apply seeded_alive; [done|exact Hfit|].
    intros i. rewrite HbF. split.
    + intros [?|(m & row & n & Hm & Hn & ->)]; [done|].
      exists m, row, n. by repeat split.
    + intros (m & row & n & Hm & Hn & ->). right.
      exists m, row, n. by repeat split.
Qed.

Lemma relabel_shape config (W H : nat) (b : nat → bool) :
  length (relabel config (matrix W H b)) = H
  ∧ (∀ row, row ∈ relabel config (matrix W H b) → length row = W)
  ∧ (∀ row cell, row ∈ relabel config (matrix W H b) → cell ∈ row →
       cell = elo_sejt config ∨ cell = halott_sejt config)
  ∧ ∀ x y : nat, (x < W)%nat → (y < H)%nat →
      relabel config (matrix W H b) !! y ≫= (λ row, row !! x)
      = Some (if b (y * W + x)%nat
              then elo_sejt config else halott_sejt config).
Proof.
  unfold relabel, matrix.
  split; [by rewrite !length_fmap, length_seq|]. split.
  { intros row Hrow. apply list_elem_of_fmap in Hrow as (r & -> & Hr).
    apply list_elem_of_fmap in Hr as (y & -> & _).
    by rewrite !length_fmap, length_seq. }
  split.
  { intros row cell Hrow Hcell.
    apply list_elem_of_fmap in Hrow as (r & -> & _).
    apply list_elem_of_fmap in Hcell as ([] & -> & _); auto. }
  intros x y Hx Hy.
  rewrite !list_lookup_fmap, lookup_seq_lt by lia. simpl.
  by rewrite !list_lookup_fmap, lookup_seq_lt by lia.
Qed.

(** X13.  When no alive marker of the table lies at or beyond the length of
    its first row, [next_state] returns a configuration with the same two
    markers whose table has as many rows as the input, each as long as the
    input's first row, and holds the alive marker exactly where Conway's
    rule, applied to the input table with everything outside it dead, gives
    a live cell, and the dead marker elsewhere.  Entries that are not the
    alive marker count as dead, and rows shorter than the first are padded
    with dead cells. *)
Theorem next_state_correct config row0 :
  tabla config !! 0%nat = Some row0 →
  (∀ x y, cfg_alive config x y = true → x < len row0) →
  ∃ t,
    next_state config
    = Ok (mkConfig (halott_sejt config) (elo_sejt config) t)
    ∧ length t = length (tabla config)
    ∧ (∀ row, row ∈ t → length row = length row0)
    ∧ ∀ x y, 0 ≤ x < len row0 → 0 ≤ y < len (tabla config) →
        t !! Z.to_nat y ≫= (λ row, row !! Z.to_nat x)
        = Some (if cfg_next config x y
                then elo_sejt config else halott_sejt config).
Proof.
  intros H0 Hfit.
  destruct (next_state_core config row0 H0 Hfit) as (bF & Hrun & Ha).
  eexists. split; [exact Hrun|].
  destruct (relabel_shape config (length row0) (length (tabla config))
              (next_alive (len row0) (len (tabla config)) bF))
    as (Hlen & Hrows & _ & Hent).
  split; [exact Hlen|]. split; [exact Hrows|].
  intros x y Hx Hy. unfold len in Hx, Hy.
  rewrite Hent by lia. f_equal.
  rewrite <- (conway_cfg config _ Ha).
  rewrite <- tick_rule by (apply in_grid_true; unfold len; lia).
  rewrite alive_at_life, in_grid_true by (unfold len; lia).
  unfold len. by rewrite !Nat2Z.id.
Qed.

Lemma rect_fits config row0 :
  tabla config !! 0%nat = Some row0 →
  (∀ row, row ∈ tabla config → length row = length row0) →
  ∀ x y, cfg_alive config x y = true → x < len row0.
Proof.
  intros H0 Hrect x y Ha.
  apply cfg_alive_spec in Ha as (Hx & Hy & row & Hr & Hc).
  apply lookup_lt_Some in Hc.
  rewrite (Hrect row) in Hc by (by eapply list_elem_of_lookup_2).
  unfold len. lia.
Qed.

Lemma plus_config_fits x y : cfg_alive plus_config x y = true → x < 3.
Proof.
  apply (rect_fits plus_config [[46%N]; [88%N]; [46%N]]); [reflexivity|].
  intros row Hrow. simpl in Hrow.
  repeat (apply elem_of_cons in Hrow as [->|Hrow]; [reflexivity|]).
  by apply elem_of_nil in Hrow.
Qed.

(** X13 on the 3 by 3 plus shape, which turns into a ring. *)
Lemma next_state_correct_witness :
  next_state plus_config
  = Ok (mkConfig [46%N] [88%N]
          [ [[88%N]; [88%N]; [88%N]];
            [[88%N]; [46%N]; [88%N]];
            [[88%N]; [88%N]; [88%N]] ])
  ∧ ∃ t,
      next_state plus_config
      = Ok (mkConfig (halott_sejt plus_config) (elo_sejt plus_config) t)
      ∧ length t = length (tabla plus_config)
      ∧ (∀ row, row ∈ t → length row = 3%nat)
      ∧ ∀ x y, 0 ≤ x < 3 → 0 ≤ y < len (tabla plus_config) →
          t !! Z.to_nat y ≫= (λ row, row !! Z.to_nat x)
          = Some (if cfg_next plus_config x y
                  then elo_sejt plus_config else halott_sejt plus_config).
Proof.
  split; [vm_compute; reflexivity|].
  exact (next_state_correct plus_config [[46%N]; [88%N]; [46%N]]
           eq_refl plus_config_fits).
Defined.

(** X14.  When an alive marker of the table lies at or beyond the length
    of the first row, [next_state] raises [IndexError]. *)
Theorem next_state_overflow config row0 x y :
  tabla config !! 0%nat = Some row0 →
  cfg_alive config x y = true → len row0 ≤ x →
  next_state config = Raise IndexError.
Proof.
  intros H0 Ha Hx. unfold next_state.
  rewrite (next_state_run_nonempty config row0 H0).
  apply cfg_alive_spec in Ha as (Hx0 & Hy0 & row & Hr & Hc).
  destruct (seed_rows_fail config (length row0) (length (tabla config))
              (tabla config) 0 (λ _, false)) as (u' & Hrun); [lia| |].
  { exists (Z.to_nat y), row, (Z.to_nat x). unfold len in Hx.
    split; [done|]. split; [done|lia]. }
  rewrite bind_run. unfold seed_table. rewrite enumerate_enum_from.
  unfold len. by rewrite Hrun.
Qed.

(** X14 on a table whose second row is longer than the first. *)
Lemma next_state_overflow_witness :
  next_state ragged_config = Raise IndexError.
Proof.
  apply (next_state_overflow ragged_config [[46%N]] 1 1);
    [reflexivity|reflexivity|]. unfold len. simpl. lia.
Defined.

(** * The configuration reader *)

Lemma strip_single c : strip [c] = if isspace c then [] else [c].
Proof.
  unfold strip. simpl. destruct (isspace c) eqn:E; [reflexivity|].
  simpl. by rewrite E.
Qed.

Lemma re_match_single key line s :
  re_match key line = Some s → ∃ c, s = [c].
Proof.
  unfold re_match. destruct (startswith key line); [|discriminate].
  destruct (lstrip (drop (length key) line))
    as [|q1 [|c [|q2 [|nl [|? ?]]]]]; try discriminate;
    case_bool_decide; try discriminate; intros [= <-]; eauto.
Qed.

Lemma marker_strip c : marker (Some (strip [c])).
Proof.
  rewrite strip_single. destruct (isspace c) eqn:E.
  - right. by left.
  - right. right. eauto.
Qed.

Lemma read_markers n : ∀ f st st',
  (length f ≤ n)%nat →
  marker (not_alive_char st) → marker (alive_char st) →
  (read_lines f st = Returns st' →
   marker (not_alive_char st') ∧ marker (alive_char st'))
  ∧ (read_table f st = Returns st' →
     marker (not_alive_char st') ∧ marker (alive_char st')).
Proof.
  induction n as [|n IH]; intros f st st' Hlen Hd Ha.
  - destruct f; [|simpl in Hlen; lia]. simpl. split; by intros [= <-].
  - destruct f as [|line f1]; [simpl; split; by intros [= <-]|].
    simpl in Hlen. split.
    + simpl. destruct (startswith (lit "tabla:") (strip line)).
      * destruct f1 as [|next_line f2]; [discriminate|].
        case_bool_decide; [|discriminate].
        apply IH; [simpl in Hlen; lia|done..].
      * destruct (re_match (lit "halott_sejt:") (strip line)) as [c|] eqn:E1.
        { apply re_match_single in E1 as [c1 ->].
          apply IH; [lia|apply marker_strip|done]. }
        destruct (re_match (lit "elo_sejt:") (strip line)) as [c|] eqn:E2.
        { apply re_match_single in E2 as [c1 ->].
          apply IH; [lia|done|apply marker_strip]. }
        apply IH; [lia|done..].
    + simpl. case_bool_decide; apply IH; (lia || done).
Qed.

Lemma elem_of_pair (x a b : list N) :
  x ∈ ({[a; b]} : gset (list N)) ↔ x = a ∨ x = b.
Proof. by rewrite elem_of_union, !elem_of_singleton. Qed.

Lemma chars_over (alive dead l : list N) :
  list_to_set (chars l) ∖ {[alive; dead]} = (∅ : gset (list N))
  ↔ ∀ ch, ch ∈ l → [ch] = alive ∨ [ch] = dead.
Proof.
  split.
  - intros He ch Hch. apply elem_of_pair.
    destruct (decide ([ch] ∈ ({[alive; dead]} : gset (list N)))) as [H|H];
      [done|].
    exfalso. apply (not_elem_of_empty (C := gset (list N)) [ch]).
    rewrite <- He. apply elem_of_difference. split; [|done].
    apply elem_of_list_to_set, list_elem_of_fmap. eauto.
  - intros Hall. apply set_eq. intros x. split.
    + intros [Hx Hn]%elem_of_difference. exfalso. apply Hn.
      apply elem_of_list_to_set, list_elem_of_fmap in Hx as (ch & -> & Hch).
      apply elem_of_pair. by apply Hall.
    + intros Hx. by apply not_elem_of_empty in Hx.
Qed.

Lemma size_union_singletons (a n : nat) :
  size ({[a]} ∪ {[n]} : gset nat) = 1%nat → a = n.
Proof.
  intros Hs. destruct (decide (a = n)) as [|Hne]; [done|].
  rewrite size_union in Hs by (by apply disjoint_singleton_l, not_elem_of_singleton).
  rewrite !size_singleton in Hs. lia.
Qed.

Lemma check_lines_spec lines alive dead : ∀ table lens c,
  check_lines lines alive dead table lens = Returns c →
  (lens = ∅ ∨ ∃ n, lens = {[n]}) →
  c = mkConfig dead alive (table ++ (chars <$> lines))
  ∧ (∀ l ch, l ∈ lines → ch ∈ l → [ch] = alive ∨ [ch] = dead)
  ∧ (∀ l n, lens = {[n]} → l ∈ lines → length l = n)
  ∧ (∀ l1 l2, l1 ∈ lines → l2 ∈ lines → length l1 = length l2).
Proof.
  induction lines as [|l lines IH]; intros table lens c Hc Hlens.
  - simpl in Hc. injection Hc as <-. rewrite app_nil_r.
    split; [done|]. repeat split; intros; exfalso; by eapply not_elem_of_nil.
  - simpl in Hc. fold (chars l) in Hc.
    case_bool_decide as Hover0; [discriminate|].
    pose proof (proj1 (chars_over alive dead l) Hover0) as Hover.
    destruct (Nat.eqb_spec (size ({[length (chars l)]} ∪ lens)) 1)
      as [Hsz|Hsz]; [|discriminate]. simpl in Hc.
    assert ({[length (chars l)]} ∪ lens = ({[length l]} : gset nat)
            ∧ ∀ n, lens = {[n]} → length l = n) as [Hl Hn].
    { unfold chars in *. rewrite length_fmap in *.
      destruct Hlens as [->|[n ->]].
      - split; [by rewrite union_empty_r_L|].
        intros n Hn. exfalso.
        apply (not_elem_of_empty (C := gset nat) n).
        rewrite Hn. by apply elem_of_singleton.
      - apply size_union_singletons in Hsz as Hsz'. subst n.
        split; [by rewrite union_idemp_L|].
        intros n Hn. symmetry. apply (elem_of_singleton (C := gset nat)).
        rewrite Hn. by apply elem_of_singleton. }
    rewrite Hl in Hc.
    apply IH in Hc as (-> & Hov & Hlen & Heq); [|eauto].
    split; [by rewrite fmap_cons, <- app_assoc|].
    split.
    { intros l' ch [->|Hl']%elem_of_cons Hch; [by apply Hover|].
      by apply (Hov l'). }
    assert (∀ l', l' ∈ l :: lines → length l' = length l) as Hall.
    { intros l' [->|Hl']%elem_of_cons; [done|]. by apply Hlen. }
    split.
    { intros l' n' Hn' Hl'. rewrite (Hall l' Hl'). by apply Hn. }
    intros l1 l2 H1 H2. by rewrite (Hall l1), (Hall l2).
Qed.

Lemma read_config_file_inv f c :
  read_config_file f = Returns c →
  ∃ st a d,
    read_lines f (mkReadState [] None None) = Returns st
    ∧ alive_char st = Some [a] ∧ isspace a = false
    ∧ not_alive_char st = Some [d] ∧ isspace d = false
    ∧ check_lines (table_lines st) [a] [d] [] ∅ = Returns c.
Proof.
  unfold read_config_file. intros Hc.
  destruct (read_lines f (mkReadState [] None None)) as [st|e] eqn:Er;
    [|discriminate].
  destruct (read_markers (length f) f (mkReadState [] None None) st (le_n _)
              ltac:(by left) ltac:(by left)) as [Hm _].
  destruct (Hm Er) as [Hd Ha].
  destruct (falsy (alive_char st)) eqn:Fa; [discriminate|].
  destruct (falsy (not_alive_char st)) eqn:Fd; [discriminate|].
  destruct Ha as [Ha|[Ha|(a & Ha & Hsa)]]; rewrite Ha in Fa; try discriminate.
  destruct Hd as [Hd|[Hd|(d & Hd & Hsd)]]; rewrite Hd in Fd; try discriminate.
  rewrite Ha, Hd in Hc. simpl in Hc. exists st, a, d. done.
Qed.

Lemma check_lines_wf lines a d c :
  isspace a = false → isspace d = false →
  check_lines lines [a] [d] [] ∅ = Returns c → well_formed c.
Proof.
  intros Hsa Hsd Hc.
  apply check_lines_spec in Hc as (-> & Hov & _ & Heq); [|by left].
  rewrite app_nil_l. unfold well_formed. cbn [elo_sejt halott_sejt tabla].
  split; [eauto|]. split; [eauto|]. split.
  - intros row cell Hrow Hcell.
    apply list_elem_of_fmap in Hrow as (l & -> & Hl).
    apply list_elem_of_fmap in Hcell as (ch & -> & Hch). by apply (Hov l).
  - intros r1 r2 H1 H2.
    apply list_elem_of_fmap in H1 as (l1 & -> & Hl1).
    apply list_elem_of_fmap in H2 as (l2 & -> & Hl2).
    unfold chars. rewrite !length_fmap. by apply Heq.
Qed.

(** X15.  Whatever the file holds, a configuration that [read_config_file]
    returns is well formed: each marker is one character that is not
    whitespace, every cell of the table is one of the two markers, and all
    rows of the table have the same length. *)
Theorem read_config_well_formed f c :
  read_config_file f = Returns c → well_formed c.
Proof.
  intros Hc.
  apply read_config_file_inv in Hc
    as (st & a & d & _ & _ & Hsa & _ & Hsd & Hc).
  by apply (check_lines_wf (table_lines st) a d).
Qed.

(** X15 on the file of the plus shape. *)
Lemma read_config_well_formed_witness :
  read_config_file plus_file = Returns plus_config ∧ well_formed plus_config.
Proof.
  assert (read_config_file plus_file = Returns plus_config) as Hr
    by (vm_compute; reflexivity).
  split; [exact Hr|]. exact (read_config_well_formed plus_file plus_config Hr).
Defined.

Lemma well_formed_rect c row0 :
  well_formed c → tabla c !! 0%nat = Some row0 →
  ∀ row, row ∈ tabla c → length row = length row0.
Proof.
  intros (_ & _ & _ & Heq) H0 row Hrow. apply Heq; [done|].
  by eapply list_elem_of_lookup_2.
Qed.

Lemma next_state_wf c :
  well_formed c → tabla c ≠ [] → ∃ c', next_state c = Ok c' ∧ well_formed c'.
Proof.
  intros Hwf Hne.
  destruct (tabla c) as [|row0 rest] eqn:Et; [done|].
  assert (tabla c !! 0%nat = Some row0) as H0 by (by rewrite Et).
  pose proof (well_formed_rect c row0 Hwf H0) as Hrect.
  destruct (next_state_core c row0 H0 (rect_fits c row0 H0 Hrect))
    as (bF & Hrun & _).
  eexists. split; [exact Hrun|].
  destruct (relabel_shape c (length row0) (length (tabla c))
              (next_alive (len row0) (len (tabla c)) bF))
    as (_ & Hrows & Hcells & _).
  destruct Hwf as (Ha & Hd & _ & _).
  unfold well_formed. cbn [elo_sejt halott_sejt tabla].
  split; [done|]. split; [done|]. split; [exact Hcells|].
  intros r1 r2 H1 H2. by rewrite (Hrows r1), (Hrows r2).
Qed.

(** X16.  [next_state] keeps configurations well formed: on a well-formed
    configuration with at least one row it returns normally, and the result
    is well formed again, with the same markers, as many rows, and rows as
    long as before.  So it can be applied again. *)
Theorem next_state_well_formed c :
  well_formed c → tabla c ≠ [] →
  ∃ c',
    next_state c = Ok c'
    ∧ well_formed c'
    ∧ elo_sejt c' = elo_sejt c ∧ halott_sejt c' = halott_sejt c
    ∧ length (tabla c') = length (tabla c)
    ∧ ∀ row row', row ∈ tabla c → row' ∈ tabla c' → length row' = length row.
Proof.
  intros Hwf Hne.
  destruct (next_state_wf c Hwf Hne) as (c' & Hrun & Hwf').
  exists c'. split; [exact Hrun|]. split; [exact Hwf'|].
  destruct (tabla c) as [|row0 rest] eqn:Et; [done|]. rewrite <- Et in *.
  assert (tabla c !! 0%nat = Some row0) as H0 by (by rewrite Et).
  pose proof (well_formed_rect c row0 Hwf H0) as Hrect.
  destruct (next_state_core c row0 H0 (rect_fits c row0 H0 Hrect))
    as (bF & Hrun' & _).
  rewrite Hrun in Hrun'. injection Hrun' as ->.
  cbn [elo_sejt halott_sejt tabla].
  destruct (relabel_shape c (length row0) (length (tabla c))
              (next_alive (len row0) (len (tabla c)) bF))
    as (Hlen & Hrows & _ & _).
  split; [done|]. split; [done|]. split; [exact Hlen|].
  intros row row' Hrow Hrow'. by rewrite (Hrows row'), (Hrect row).
Qed.

Lemma plus_config_wf : well_formed plus_config.
Proof.
  assert (read_config_file plus_file = Returns plus_config) as Hr
    by (vm_compute; reflexivity).
  apply read_config_file_inv in Hr as (st & a & d & _ & _ & Hsa & _ & Hsd & Hc).
  by apply (check_lines_wf (table_lines st) a d).
Qed.

(** X16 on the plus shape. *)
Lemma next_state_well_formed_witness :
  well_formed plus_config ∧ tabla plus_config ≠ []
  ∧ ∃ c',
      next_state plus_config = Ok c'
      ∧ well_formed c'
      ∧ elo_sejt c' = elo_sejt plus_config
      ∧ halott_sejt c' = halott_sejt plus_config
      ∧ length (tabla c') = length (tabla plus_config)
      ∧ ∀ row row', row ∈ tabla plus_config → row' ∈ tabla c' →
          length row' = length row.
Proof.
  split; [exact plus_config_wf|]. split; [discriminate|].
  apply (next_state_well_formed plus_config plus_config_wf). discriminate.
Defined.

(** X17.  After a successful read the only way [next_state] can fail is an
    empty table: it raises [IndexError] when the file defined no table row
    and returns normally otherwise. *)
Theorem read_then_next_state f c :
  read_config_file f = Returns c →
  (tabla c = [] → next_state c = Raise IndexError)
  ∧ (tabla c ≠ [] → ∃ c', next_state c = Ok c' ∧ well_formed c').
Proof.
  intros Hr. split; [apply next_state_no_rows|].
  intros Hne. apply next_state_wf; [|exact Hne].
  apply read_config_file_inv in Hr as (st & a & d & _ & _ & Hsa & _ & Hsd & Hc).
  by apply (check_lines_wf (table_lines st) a d).
Qed.

(** X17 on the file of the plus shape. *)
Lemma read_then_next_state_witness :
  read_config_file plus_file = Returns plus_config
  ∧ (tabla plus_config = [] → next_state plus_config = Raise IndexError)
  ∧ (tabla plus_config ≠ [] →
     ∃ c', next_state plus_config = Ok c' ∧ well_formed c').
Proof.
  assert (read_config_file plus_file = Returns plus_config) as Hr
    by (vm_compute; reflexivity).
  split; [exact Hr|]. exact (read_then_next_state plus_file plus_config Hr).
Defined.

Lemma read_lines_plain pre : ∀ rest st,
  Forall plain pre →
  ∃ st', read_lines (pre ++ rest) st = read_lines rest st'
         ∧ table_lines st' = table_lines st.
Proof.
  induction pre as [|line pre IH]; intros rest st Hp; [by exists st|].
  apply Forall_cons in Hp as [Hl Hp]. unfold plain in Hl.
  simpl. rewrite Hl.
  destruct (re_match (lit "halott_sejt:") (strip line)) as [c|].
  { destruct (IH rest (mkReadState (table_lines st) (Some (strip c))
                                   (alive_char st)) Hp) as (st' & -> & Ht).
    by exists st'. }
  destruct (re_match (lit "elo_sejt:") (strip line)) as [c|].
  { destruct (IH rest (mkReadState (table_lines st) (not_alive_char st)
                                   (Some (strip c))) Hp) as (st' & -> & Ht).
    by exists st'. }
  by apply IH.
Qed.

(** X18.  A table must be opened by a line holding a lone double quote: when
    the first line that starts with [tabla:] is the last line of the file,
    [read_config_file] raises [StopIteration], and when the line after it is
    anything but a double quote, surrounding whitespace aside, it raises
    [AssertionError]. *)
Theorem read_config_table_opening pre line :
  Forall plain pre → startswith (lit "tabla:") (strip line) = true →
  read_config_file (pre ++ [line]) = Raises StopIteration
  ∧ ∀ next_line rest,
      strip next_line ≠ quote →
      read_config_file (pre ++ line :: next_line :: rest)
      = Raises (Exn AssertionError).
Proof.
  intros Hp Hl. split.
  - unfold read_config_file.
    destruct (read_lines_plain pre [line] (mkReadState [] None None) Hp)
      as (st' & -> & _).
    simpl. by rewrite Hl.
  - intros next_line rest Hq. unfold read_config_file.
    destruct (read_lines_plain pre (line :: next_line :: rest)
                (mkReadState [] None None) Hp) as (st' & -> & _).
    simpl. rewrite Hl. by rewrite bool_decide_false.
Qed.

(** X18 on a file that sets a marker and then opens a table. *)
Lemma read_config_table_opening_witness :
  read_config_file [lit "elo_sejt: X"; lit "  tabla: "] = Raises StopIteration
  ∧ ∀ next_line rest,
      strip next_line ≠ quote →
      read_config_file (lit "elo_sejt: X" :: lit "  tabla: " :: next_line :: rest)
      = Raises (Exn AssertionError).
Proof.
  apply (read_config_table_opening [lit "elo_sejt: X"] (lit "  tabla: ")).
  - repeat constructor.
  - vm_compute. reflexivity.
Defined.

Lemma lstrip_id c s : isspace c = false → lstrip (c :: s) = c :: s.
Proof. intros Hc. simpl. by rewrite Hc. Qed.

Lemma strip_clean s :
  (∀ c, head s = Some c → isspace c = false) →
  (∀ c, last s = Some c → isspace c = false) →
  strip (s ++ [10%N]) = s.
Proof.
  intros Hh Hl. destruct s as [|c s']; [reflexivity|].
  unfold strip. rewrite <- app_comm_cons, lstrip_id by (by apply Hh).
  rewrite app_comm_cons, reverse_snoc.
  change (lstrip (10%N :: reverse (c :: s'))) with (lstrip (reverse (c :: s'))).
  destruct (reverse (c :: s')) as [|x r] eqn:Er.
  - apply (f_equal length) in Er. rewrite length_reverse in Er. discriminate.
  - rewrite lstrip_id.
    + by rewrite <- Er, reverse_involutive.
    + apply Hl. by rewrite <- head_reverse, Er.
Qed.

Lemma re_match_marker_line key c :
  isspace c = false → re_match key (key ++ [32; 34; c; 34]%N) = Some [c].
Proof.
  intros Hc. unfold re_match, startswith.
  rewrite take_app_length, bool_decide_true by done.
  rewrite drop_app_length.
  change (lstrip [32; 34; c; 34]%N) with [34; c; 34]%N. cbv iota beta.
  rewrite bool_decide_true; [done|].
  split; [done|]. split; [|done]. intros ->. discriminate.
Qed.

Lemma check_lines_complete lines alive dead : ∀ table lens,
  (∀ l ch, l ∈ lines → ch ∈ l → [ch] = alive ∨ [ch] = dead) →
  (lens = ∅ ∧ (∀ l1 l2, l1 ∈ lines → l2 ∈ lines → length l1 = length l2)
   ∨ ∃ n, lens = {[n]} ∧ ∀ l, l ∈ lines → length l = n) →
  check_lines lines alive dead table lens
  = Returns (mkConfig dead alive (table ++ (chars <$> lines))).
Proof.
  induction lines as [|l lines IH]; intros table lens Hov Hlens.
  - simpl. by rewrite app_nil_r.
  - simpl. fold (chars l).
    rewrite bool_decide_false.
    2:{ intros Hne. apply Hne, chars_over. intros ch Hch.
        apply (Hov l); [by left|done]. }
    assert ({[length (chars l)]} ∪ lens = ({[length l]} : gset nat)
            ∧ ∀ l', l' ∈ lines → length l' = length l) as [Hl Hrest].
    { unfold chars. rewrite length_fmap.
      destruct Hlens as [[-> Heq]|(n & -> & Hn)].
      - split; [by rewrite union_empty_r_L|].
        intros l' Hl'. apply Heq; [by right|by left].
      - rewrite <- (Hn l) by (by left).
        split; [by rewrite union_idemp_L|].
        intros l' Hl'. rewrite (Hn l') by (by right).
        by rewrite (Hn l) by (by left). }
    rewrite Hl, size_singleton. simpl.
    rewrite IH.
    + by rewrite <- app_assoc.
    + intros l' ch Hl' Hch. apply (Hov l'); [by right|done].
    + right. eauto.
Qed.

Lemma read_table_rows rows : ∀ rest st,
  (∀ row, row ∈ rows → strip (row ++ [10%N]) = row ∧ row ≠ quote) →
  read_table (((λ row, row ++ [10%N]) <$> rows) ++ rest) st
  = read_table rest (mkReadState (table_lines st ++ rows)
                                 (not_alive_char st) (alive_char st)).
Proof.
  induction rows as [|row rows IH]; intros rest st Hrows.
  - simpl. rewrite app_nil_r. by destruct st.
  - destruct (Hrows row ltac:(left)) as [Hs Hq].
    rewrite fmap_cons. simpl. rewrite Hs, bool_decide_false by done.
    rewrite IH by (intros r Hr; apply Hrows; by right).
    simpl. by rewrite <- app_assoc.
Qed.

Lemma read_lines_halott line f st c :
  startswith (lit "tabla:") (strip line) = false →
  re_match (lit "halott_sejt:") (strip line) = Some c →
  read_lines (line :: f) st
  = read_lines f (mkReadState (table_lines st) (Some (strip c)) (alive_char st)).
Proof. intros H1 H2. cbn [read_lines]. by rewrite H1, H2. Qed.

Lemma read_lines_elo line f st c :
  startswith (lit "tabla:") (strip line) = false →
  re_match (lit "halott_sejt:") (strip line) = None →
  re_match (lit "elo_sejt:") (strip line) = Some c →
  read_lines (line :: f) st
  = read_lines f (mkReadState (table_lines st) (not_alive_char st)
                              (Some (strip c))).
Proof. intros H1 H2 H3. cbn [read_lines]. by rewrite H1, H2, H3. Qed.

Lemma read_lines_tabla line next_line f st :
  startswith (lit "tabla:") (strip line) = true ∧ strip next_line = quote →
  read_lines (line :: next_line :: f) st = read_table f st.
Proof.
  intros [H1 H2]. cbn [read_lines]. by rewrite H1, bool_decide_true.
Qed.

Lemma read_table_close line f st :
  strip line = quote → read_table (line :: f) st = read_lines f st.
Proof. intros H1. cbn [read_table]. by rewrite bool_decide_true. Qed.

Lemma clean_row_strip (a d : N) (rows : list (list N)) (row : list N) :
  isspace a = false → isspace d = false →
  (∀ (r : list N) ch, r ∈ rows → ch ∈ r → ch = a ∨ ch = d) →
  row ∈ rows → strip (row ++ [10%N]) = row.
Proof.
  intros Ha Hd Hov Hrow. apply strip_clean.
  - intros c Hc. apply head_Some_elem_of in Hc.
    destruct (Hov row c Hrow Hc) as [->| ->]; done.
  - intros c Hc. apply last_Some_elem_of in Hc.
    destruct (Hov row c Hrow Hc) as [->| ->]; done.
Qed.

Lemma read_layout_lines a d rows :
  isspace a = false → isspace d = false →
  (∀ row, row ∈ rows → strip (row ++ [10%N]) = row ∧ row ≠ quote) →
  read_lines (config_file a d rows) (mkReadState [] None None)
  = Returns (mkReadState rows (Some [d]) (Some [a])).
Proof.
  intros Ha Hd Hrows. unfold config_file.
  rewrite (read_lines_halott _ _ _ [d]).
  2:{ vm_compute. reflexivity. }
  2:{ replace (strip (lit "halott_sejt: " ++ quote ++ [d] ++ quote ++ [10%N]))
        with (lit "halott_sejt:" ++ [32; 34; d; 34]%N)
        by (vm_compute; reflexivity).
      by apply re_match_marker_line. }
  rewrite (read_lines_elo _ _ _ [a]).
  2:{ vm_compute. reflexivity. }
  2:{ vm_compute. reflexivity. }
  2:{ replace (strip (lit "elo_sejt: " ++ quote ++ [a] ++ quote ++ [10%N]))
        with (lit "elo_sejt:" ++ [32; 34; a; 34]%N)
        by (vm_compute; reflexivity).
      by apply re_match_marker_line. }
  rewrite read_lines_tabla by (split; vm_compute; reflexivity).
  rewrite read_table_rows by done.
  rewrite read_table_close by (vm_compute; reflexivity).
  cbn [read_lines table_lines not_alive_char alive_char app].
  by rewrite !strip_single, Ha, Hd.
Qed.

(** X19.  A file in the usual layout is read as written: with markers that
    are not whitespace, rows made of the two markers, all of one length and
    none of them a lone double quote, [read_config_file] returns the
    configuration with these markers and these rows, split into cells. *)
Theorem read_config_file_layout a d rows :
  isspace a = false → isspace d = false →
  (∀ row ch, row ∈ rows → ch ∈ row → ch = a ∨ ch = d) →
  (∀ r1 r2, r1 ∈ rows → r2 ∈ rows → length r1 = length r2) →
  (∀ row, row ∈ rows → row ≠ quote) →
  read_config_file (config_file a d rows)
  = Returns (mkConfig [d] [a] (chars <$> rows)).
Proof.
  intros Ha Hd Hov Heq Hq. unfold read_config_file.
  rewrite read_layout_lines; [|done|done|].
  2:{ intros row Hrow.
      split; [exact (clean_row_strip a d rows row Ha Hd Hov Hrow)|by apply Hq]. }
  cbn [falsy default alive_char not_alive_char table_lines].
  rewrite check_lines_complete; [reflexivity| |].
  - intros l ch Hl Hch. destruct (Hov l ch Hl Hch) as [->| ->]; auto.
  - left. split; [done|exact Heq].
Qed.

(** X19 on the plus shape. *)
Lemma read_config_file_layout_witness :
  read_config_file (config_file 88 46 [lit ".X."; lit "XXX"; lit ".X."])
  = Returns (mkConfig [46%N] [88%N]
               (chars <$> [lit ".X."; lit "XXX"; lit ".X."])).
Proof.
  apply read_config_file_layout; [reflexivity|reflexivity|..].
  - intros row ch Hrow Hch.
    repeat (apply elem_of_cons in Hrow as [->|Hrow]);
      try (by apply elem_of_nil in Hrow);
      repeat (apply elem_of_cons in Hch as [->|Hch]);
      try (by apply elem_of_nil in Hch); auto.
  - intros r1 r2 H1 H2.
    repeat (apply elem_of_cons in H1 as [->|H1]);
      try (by apply elem_of_nil in H1);
      repeat (apply elem_of_cons in H2 as [->|H2]);
      try (by apply elem_of_nil in H2); reflexivity.
  - intros row Hrow.
    repeat (apply elem_of_cons in Hrow as [->|Hrow]);
      try (by apply elem_of_nil in Hrow); discriminate.
Defined.

Lemma check_lines_outcome lines alive dead : ∀ table lens,
  (∃ c, check_lines lines alive dead table lens = Returns c)
  ∨ check_lines lines alive dead table lens = Raises ValueError.
Proof.
  induction lines as [|l lines IH]; intros table lens; simpl; [eauto|].
  case_bool_decide; [by right|].
  destruct (negb _); [by right|]. apply IH.
Qed.

(** X20.  A file whose table rows are not all made of the two markers, or
    are not all of one length, is rejected with [ValueError].  (The rows
    carry no whitespace at their ends and none is a lone double quote, so
    that each is read as a table line as it stands.) *)
Theorem read_config_bad_rows a d rows :
  isspace a = false → isspace d = false →
  (∀ row, row ∈ rows →
     (∀ c, head row = Some c → isspace c = false)
     ∧ (∀ c, last row = Some c → isspace c = false)
     ∧ row ≠ quote) →
  ¬ ((∀ row ch, row ∈ rows → ch ∈ row → ch = a ∨ ch = d)
     ∧ (∀ r1 r2, r1 ∈ rows → r2 ∈ rows → length r1 = length r2)) →
  read_config_file (config_file a d rows) = Raises ValueError.
Proof.
  intros Ha Hd Hclean Hbad. unfold read_config_file.
  rewrite read_layout_lines; [|done|done|].
  2:{ intros row Hrow. destruct (Hclean row Hrow) as (Hh & Hl & Hq).
      split; [by apply strip_clean|done]. }
  cbn [falsy default alive_char not_alive_char table_lines].
  destruct (check_lines_outcome rows [a] [d] [] ∅) as [[c Hc]|Hc]; [|done].
  exfalso. apply Hbad.
  apply check_lines_spec in Hc as (_ & Hov & _ & Heq); [|by left].
  split; [|exact Heq].
  intros row ch Hrow Hch.
  destruct (Hov row ch Hrow Hch) as [[= ->]|[= ->]]; auto.
Qed.

(** X20 on a table with a stray character and on a table with rows of two
    lengths. *)
Lemma read_config_bad_rows_witness :
  read_config_file (config_file 88 46 [lit ".X."; lit ".?."]) = Raises ValueError
  ∧ read_config_file (config_file 88 46 [lit ".X."; lit ".X"]) = Raises ValueError.
Proof.
  split.
  - apply read_config_bad_rows; [reflexivity|reflexivity| |].
    + intros row Hrow.
      repeat (apply elem_of_cons in Hrow as [->|Hrow]);
        try (by apply elem_of_nil in Hrow);
        (split; [by intros c [= <-]|]); (split; [by intros c [= <-]|]);
        discriminate.
    + intros [Hov _].
      destruct (Hov (lit ".?.") 63%N) as [E|E]; try discriminate.
      * right. left.
      * right. left.
  - apply read_config_bad_rows; [reflexivity|reflexivity| |].
    + intros row Hrow.
      repeat (apply elem_of_cons in Hrow as [->|Hrow]);
        try (by apply elem_of_nil in Hrow);
        (split; [by intros c [= <-]|]); (split; [by intros c [= <-]|]);
        discriminate.
    + intros [_ Heq].
      specialize (Heq (lit ".X.") (lit ".X") ltac:(left) ltac:(right; left)).
      discriminate.
Defined.

Lemma read_lines_no_alive f : ∀ st,
  Forall (λ line, plain line ∧ re_match (lit "elo_sejt:") (strip line) = None) f →
  alive_char st = None →
  ∃ st', read_lines f st = Returns st' ∧ alive_char st' = None.
Proof.
  induction f as [|line f IH]; intros st Hf Ha; [by exists st|].
  apply Forall_cons in Hf as [[Hp He] Hf]. unfold plain in Hp.
  cbn [read_lines]. rewrite Hp, He.
  destruct (re_match (lit "halott_sejt:") (strip line)); by apply IH.
Qed.

(** X21.  A file with no table and no line that sets the alive marker is
    rejected with [AttributeError]; the empty file is one. *)
Theorem read_config_no_alive_marker f :
  Forall (λ line, plain line ∧ re_match (lit "elo_sejt:") (strip line) = None) f →
  read_config_file f = Raises AttributeError.
Proof.
  intros Hf. unfold read_config_file.
  destruct (read_lines_no_alive f (mkReadState [] None None) Hf eq_refl)
    as (st' & -> & Ha).
  by rewrite Ha.
Qed.

(** X21 on the empty file and on a file that sets the dead marker only. *)
Lemma read_config_no_alive_marker_witness :
  read_config_file [] = Raises AttributeError
  ∧ read_config_file [lit "halott_sejt: " ++ quote ++ lit "." ++ quote]
    = Raises AttributeError.
Proof.
  split.
  - apply read_config_no_alive_marker. constructor.
  - apply read_config_no_alive_marker.
    constructor; [|constructor]. split; vm_compute; reflexivity.
Defined.
